(** * wine_bot: the browser-side chat controller (static/app_backup.js)

    The file holds two variants of the controller.  Variant A talks to
    [/next_question], [/answer] and [/reset] and guards every call with
    the [isFetching] flag; variant B talks to the single [/conversation]
    endpoint and has no guard.  Both are embedded here as state machines
    over an explicit page state: an event either calls one of the
    handlers, or settles a call that is in flight, which resumes the
    [async] function that was suspended on it.

    An [async] function runs without interruption from one [await] of a
    call to the next.  [await fetch(...)] and [await resp.json()] are
    one suspension here, since nothing is read or written between them.
    An [await] of [getNextQuestion()] that returns at its guard resumes
    its caller in a microtask, before any other event is handled. *)

From Stdlib Require Import ZArith NArith Ascii String DecimalPos DecimalN DecimalZ.
From stdpp Require Import gmap list.

Local Open Scope N_scope.

(** ** JavaScript strings

    A JavaScript string is a sequence of UTF-16 code units. *)

Abbreviation jsstring := (list N).

(** An ASCII literal of the source as code units. *)
Fixpoint lit (s : String.string) : jsstring :=
  match s with
  | EmptyString => []
  | String c r => N_of_ascii c :: lit r
  end.

(** WhiteSpace and LineTerminator code units of ECMAScript: what
    [String.prototype.trim] strips and what [\s] matches. *)
Definition is_ws (c : N) : bool :=
  ((9 <=? c) && (c <=? 13)) || (c =? 32) || (c =? 160) || (c =? 0x1680)
  || ((0x2000 <=? c) && (c <=? 0x200A))
  || (c =? 0x2028) || (c =? 0x2029) || (c =? 0x202F) || (c =? 0x205F)
  || (c =? 0x3000) || (c =? 0xFEFF).

(** LineTerminator: what [.] does not match. *)
Definition is_line_terminator (c : N) : bool :=
  (c =? 10) || (c =? 13) || (c =? 0x2028) || (c =? 0x2029).

Fixpoint skip_ws (s : jsstring) : jsstring :=
  match s with
  | c :: r => if is_ws c then skip_ws r else s
  | [] => []
  end.

Definition trimStart (s : jsstring) : jsstring := skip_ws s.
Definition trimEnd (s : jsstring) : jsstring := rev (skip_ws (rev s)).
Definition trim (s : jsstring) : jsstring := trimEnd (trimStart s).

(** [s.split(",")]: the pieces between the separators, in order; a
    string without separator is its own single piece (also the empty one). *)
Fixpoint split (sep : N) (s : jsstring) : list jsstring :=
  match s with
  | [] => [[]]
  | c :: r =>
      if c =? sep then [] :: split sep r
      else match split sep r with
           | p :: ps => (c :: p) :: ps
           | [] => [[c]]
           end
  end.

Definition comma : N := 44.

(** [toLowerCase] and the case folding of a regular expression with the
    [i] flag (and without [u]), on the ASCII letters: no code unit
    outside ASCII folds to an ASCII letter there. *)
Definition lower_cu (c : N) : N :=
  if (65 <=? c) && (c <=? 90) then c + 32 else c.

Definition toLowerCase (s : jsstring) : jsstring := map lower_cu s.

(** ** The regular expression of line 81

    The marker [Options:] without case, then any run of white space,
    then a capture group that takes the rest of the line. *)

Definition marker : jsstring := lit "Options:".

(** [starts_with_ci pat s]: what follows [pat] when [s] starts with it,
    letters compared without case. *)
Fixpoint starts_with_ci (pat s : jsstring) : option jsstring :=
  match pat, s with
  | [], _ => Some s
  | p :: pat', c :: s' =>
      if lower_cu p =? lower_cu c then starts_with_ci pat' s' else None
  | _ :: _, [] => None
  end.

(** The leftmost position where the marker matches; the rest of the
    pattern (white space, then the group) matches at every position, so
    the leftmost marker is the match. *)
Fixpoint find_marker (s : jsstring) : option jsstring :=
  match starts_with_ci marker s with
  | Some rest => Some rest
  | None =>
      match s with
      | [] => None
      | _ :: r => find_marker r
      end
  end.

(** The capture group: greedy, up to the first line terminator. *)
Fixpoint take_line (s : jsstring) : jsstring :=
  match s with
  | c :: r => if is_line_terminator c then [] else c :: take_line r
  | [] => []
  end.

(** [text.match] with that expression: [None] for [null], otherwise the
    capture group [match[1]]. *)
Definition matchOptions (text : jsstring) : option jsstring :=
  match find_marker text with
  | Some rest => Some (take_line (skip_ws rest))
  | None => None
  end.

(** The marker stands at position [i] of [text], in any case, and [rest]
    is what follows it. *)
Definition marker_at (i : nat) (text rest : jsstring) : Prop :=
  ∃ mk, drop i text = mk ++ rest ∧ toLowerCase mk = toLowerCase marker.

(** [optionsStr.split(",").map(o => o.trim())] *)
Definition parseOptions (optionsStr : jsstring) : list jsstring :=
  map trim (split comma optionsStr).

(** ** Values read from a response

    A property of the decoded body is a string, or [undefined] when the
    field is absent ([None]). *)

Definition truthy (v : option jsstring) : bool :=
  match v with
  | Some (_ :: _) => true
  | _ => false
  end.

(** The string a template literal puts for the value. *)
Definition toString (v : option jsstring) : jsstring :=
  match v with
  | Some s => s
  | None => lit "undefined"
  end.

(** ** Numbers as decimal strings: [Date.now().toString()] *)

Fixpoint uint_cus (u : Decimal.uint) : jsstring :=
  match u with
  | Decimal.Nil => []
  | Decimal.D0 r => 48 :: uint_cus r
  | Decimal.D1 r => 49 :: uint_cus r
  | Decimal.D2 r => 50 :: uint_cus r
  | Decimal.D3 r => 51 :: uint_cus r
  | Decimal.D4 r => 52 :: uint_cus r
  | Decimal.D5 r => 53 :: uint_cus r
  | Decimal.D6 r => 54 :: uint_cus r
  | Decimal.D7 r => 55 :: uint_cus r
  | Decimal.D8 r => 56 :: uint_cus r
  | Decimal.D9 r => 57 :: uint_cus r
  end.

(** The decimal form of an integer number (a time in milliseconds). *)
Definition numberToString (z : Z) : jsstring :=
  match Z.to_int z with
  | Decimal.Pos u => uint_cus u
  | Decimal.Neg u => 45 :: uint_cus u
  end.

(** ** 1) The identity store (lines 4-8 and 188-192) *)

Abbreviation storage := (gmap (list N) (list N)).

Definition userIdKey : jsstring := lit "wine_userId".

(** [localStorage.getItem] gives [null] for a missing key; [!userId] also
    holds for an empty stored string.  [now] is what [Date.now()]
    returns.  The result is the value of [userId] and the storage left
    behind. *)
Definition loadUserId (now : Z) (ls : storage) : jsstring * storage :=
  if truthy (ls !! userIdKey) then (toString (ls !! userIdKey), ls)
  else
    let userId := numberToString now in
    (userId, <[userIdKey := userId]> ls).

(** ** The page and the network

    An element of the page, as far as the script touches it: its tag,
    [textContent], [classList] and [disabled]. *)

Inductive tag := TagP | TagButton.

Record element := {
  tagName : tag;
  textContent : jsstring;
  classList : list jsstring;
  disabled : bool
}.

(** The three senders [addMessage] is called with. *)
Inductive sender := AI | You | System.

Definition sender_name (s : sender) : jsstring :=
  match s with
  | AI => lit "AI"
  | You => lit "You"
  | System => lit "System"
  end.

(** The [<p>] element [addMessage] builds (lines 36-38 and 211-213):
    the text is the template literal, the class the lowercased sender. *)
Definition newLine (who : sender) (text : option jsstring) : element :=
  {| tagName := TagP;
     textContent := sender_name who ++ lit ": " ++ toString text;
     classList := [toLowerCase (sender_name who)];
     disabled := false |}.

(** [addMessage] on the children of [conversationDiv]; the scroll
    position is not part of the model. *)
Definition appendMessage (who : sender) (text : option jsstring)
    (children : list element) : list element :=
  children ++ [newLine who text].

Definition serverUrl : jsstring := lit "http://127.0.0.1:5001".

Inductive method := GET | POST.

(** A call of [fetch]: the method, the address, and the one field of the
    object given to [JSON.stringify] when there is a body. *)
Record request := {
  req_method : method;
  req_url : jsstring;
  req_json : option (jsstring * jsstring)
}.

(** The decoded body.  Each property the script reads is present with
    the type the server gives it, or absent ([undefined]). *)
Record response := {
  r_error : option jsstring;
  r_message : option jsstring;
  r_done : option bool;
  r_options : option (list jsstring)
}.

(** How a call settles: [fetch] or [resp.json()] rejects (no connection,
    a body that is not JSON); the body is the JSON [null], on which
    every property access throws; or the body is decoded. *)
Inductive outcome :=
  | Rejected
  | JsonNull
  | Json (data : response).

Definition is_button (e : element) : bool :=
  match tagName e with TagButton => true | TagP => false end.

Definition has_class (c : jsstring) (e : element) : bool :=
  bool_decide (c ∈ classList e).

Definition set_disabled (b : bool) (e : element) : element :=
  {| tagName := tagName e; textContent := textContent e;
     classList := classList e; disabled := b |}.

(** ** Variant A (lines 1-187) *)

Module VariantA.

(** Who awaits a call of [getNextQuestion]: nobody (an event handler
    calls it and goes on), or [sendAnswer] (line 126) or
    [resetRecommender] (line 166), whose [finally] block runs once the
    call returns. *)
Inductive caller := Top | FromSendAnswer | FromReset.

(** An [async] function suspended on its call. *)
Inductive task :=
  | AwaitNextQuestion (k : caller)
  | AwaitAnswer
  | AwaitReset.

Record state := {
  userId : jsstring;
  isFetching : bool;
  conversationDiv : list element;
  optionsDiv : list element;
  userInput_value : jsstring;
  userInput_disabled : bool;
  submitButton_disabled : bool;
  requests : list request;      (* every call of fetch, oldest first *)
  inflight : list task          (* the calls that have not settled *)
}.

Definition set_isFetching (b : bool) (s : state) : state :=
  {| userId := userId s; isFetching := b;
     conversationDiv := conversationDiv s; optionsDiv := optionsDiv s;
     userInput_value := userInput_value s;
     userInput_disabled := userInput_disabled s;
     submitButton_disabled := submitButton_disabled s;
     requests := requests s; inflight := inflight s |}.

Definition set_conversationDiv (c : list element) (s : state) : state :=
  {| userId := userId s; isFetching := isFetching s;
     conversationDiv := c; optionsDiv := optionsDiv s;
     userInput_value := userInput_value s;
     userInput_disabled := userInput_disabled s;
     submitButton_disabled := submitButton_disabled s;
     requests := requests s; inflight := inflight s |}.

Definition set_optionsDiv (o : list element) (s : state) : state :=
  {| userId := userId s; isFetching := isFetching s;
     conversationDiv := conversationDiv s; optionsDiv := o;
     userInput_value := userInput_value s;
     userInput_disabled := userInput_disabled s;
     submitButton_disabled := submitButton_disabled s;
     requests := requests s; inflight := inflight s |}.

Definition set_userInput_value (v : jsstring) (s : state) : state :=
  {| userId := userId s; isFetching := isFetching s;
     conversationDiv := conversationDiv s; optionsDiv := optionsDiv s;
     userInput_value := v;
     userInput_disabled := userInput_disabled s;
     submitButton_disabled := submitButton_disabled s;
     requests := requests s; inflight := inflight s |}.

Definition set_controls_disabled (b : bool) (s : state) : state :=
  {| userId := userId s; isFetching := isFetching s;
     conversationDiv := conversationDiv s; optionsDiv := optionsDiv s;
     userInput_value := userInput_value s;
     userInput_disabled := b;
     submitButton_disabled := b;
     requests := requests s; inflight := inflight s |}.

Definition set_inflight (l : list task) (s : state) : state :=
  {| userId := userId s; isFetching := isFetching s;
     conversationDiv := conversationDiv s; optionsDiv := optionsDiv s;
     userInput_value := userInput_value s;
     userInput_disabled := userInput_disabled s;
     submitButton_disabled := submitButton_disabled s;
     requests := requests s; inflight := l |}.

(** [await fetch(...)]: the call goes out and the function is suspended. *)
Definition fetch (r : request) (t : task) (s : state) : state :=
  {| userId := userId s; isFetching := isFetching s;
     conversationDiv := conversationDiv s; optionsDiv := optionsDiv s;
     userInput_value := userInput_value s;
     userInput_disabled := userInput_disabled s;
     submitButton_disabled := submitButton_disabled s;
     requests := requests s ++ [r]; inflight := inflight s ++ [t] |}.

(** The page once the script has run and [DOMContentLoaded] has bound the
    elements, before its handler calls [getNextQuestion]. *)
Definition loaded (uid : jsstring) : state :=
  {| userId := uid; isFetching := false;
     conversationDiv := []; optionsDiv := [];
     userInput_value := []; userInput_disabled := false;
     submitButton_disabled := false;
     requests := []; inflight := [] |}.

(** The script from its first line to that point (lines 4-23). *)
Definition start (now : Z) (ls : storage) : state * storage :=
  (loaded (loadUserId now ls).1, (loadUserId now ls).2).

(** 3) [addMessage] (lines 35-41) *)
Definition addMessage (who : sender) (text : option jsstring) (s : state) : state :=
  set_conversationDiv (appendMessage who text (conversationDiv s)) s.

(** [disableUI] and [enableUI] (lines 46-55) *)
Definition disableUI (s : state) : state :=
  set_optionsDiv
    (map (fun btn => if is_button btn then set_disabled true btn else btn)
         (optionsDiv s))
    (set_controls_disabled true s).

Definition enableUI (s : state) : state := set_controls_disabled false s.

(** The [finally] block of the three functions. *)
Definition finally (s : state) : state := enableUI (set_isFetching false s).

(** The [catch] block of the three functions. *)
Definition catch (s : state) : state :=
  addMessage System (Some (lit "Unable to connect to server.")) s.

Definition url (path : String.string) (s : state) : jsstring :=
  serverUrl ++ lit path ++ lit "?user_id=" ++ userId s.

Definition nextQuestionRequest (s : state) : request :=
  {| req_method := GET; req_url := url "/next_question" s; req_json := None |}.

Definition answerRequest (answer : jsstring) (s : state) : request :=
  {| req_method := POST; req_url := url "/answer" s;
     req_json := Some (lit "answer", answer) |}.

Definition resetRequest (s : state) : request :=
  {| req_method := POST; req_url := url "/reset" s; req_json := None |}.

(** What the caller of [getNextQuestion] does when the call returns. *)
Definition resume (k : caller) (s : state) : state :=
  match k with
  | Top => s
  | FromSendAnswer | FromReset => finally s
  end.

(** [getNextQuestion] up to its [await] (lines 60-66). *)
Definition getNextQuestion (k : caller) (s : state) : state :=
  if isFetching s then resume k s
  else fetch (nextQuestionRequest s) (AwaitNextQuestion k)
             (disableUI (set_isFetching true s)).

(** The button of lines 86-92; its listener keeps [opt], which is also
    its text. *)
Definition newOptionButton (opt : jsstring) : element :=
  {| tagName := TagButton; textContent := opt; classList := []; disabled := false |}.

(** [data.message || ""] (line 81) *)
Definition messageText (data : response) : jsstring :=
  if truthy (r_message data) then toString (r_message data) else [].

(** [getNextQuestion] from the response on (lines 67-102). *)
Definition getNextQuestion_settled (k : caller) (o : outcome) (s : state) : state :=
  resume k (finally
    match o with
    | Json data =>
        let s1 :=
          if truthy (r_error data) then addMessage System (r_error data) s
          else addMessage AI (r_message data) s in
        let s2 := set_optionsDiv [] s1 in
        match matchOptions (messageText data) with
        | Some optionsStr =>
            set_optionsDiv
              (optionsDiv s2 ++ map newOptionButton (parseOptions optionsStr)) s2
        | None => s2
        end
    | Rejected | JsonNull => catch s
    end).

(** [sendAnswer] up to its [await] (lines 108-118). *)
Definition sendAnswer (answer : jsstring) (s : state) : state :=
  if isFetching s then s
  else fetch (answerRequest answer s) AwaitAnswer
             (disableUI (set_isFetching true s)).

(** [sendAnswer] from the response on (lines 119-135); [!data.done]
    holds for [false] and for a missing field. *)
Definition sendAnswer_settled (o : outcome) (s : state) : state :=
  match o with
  | Json data =>
      let s1 := addMessage AI (r_message data) s in
      if negb (default false (r_done data))
      then getNextQuestion FromSendAnswer s1
      else finally s1
  | Rejected | JsonNull => finally (catch s)
  end.

(** [resetRecommender] up to its [await] (lines 141-149). *)
Definition resetRecommender (s : state) : state :=
  if isFetching s then s
  else fetch (resetRequest s) AwaitReset
             (disableUI (set_isFetching true s)).

(** Lines 153-155. *)
Definition clearAll (s : state) : state :=
  set_userInput_value [] (set_optionsDiv [] (set_conversationDiv [] s)).

(** [resetRecommender] from the response on (lines 150-174).  On [null]
    the page is cleared before [data.message] throws. *)
Definition resetRecommender_settled (o : outcome) (s : state) : state :=
  match o with
  | Json data =>
      let s1 := clearAll s in
      let s2 :=
        if truthy (r_message data) then addMessage System (r_message data) s1
        else addMessage System (Some (lit "Session reset. Starting fresh...")) s1 in
      getNextQuestion FromReset s2
  | JsonNull => finally (catch (clearAll s))
  | Rejected => finally (catch s)
  end.

(** [handleSubmit] (lines 180-187). *)
Definition handleSubmit (s : state) : state :=
  let ans := trim (userInput_value s) in
  if truthy (Some ans)
  then sendAnswer ans (set_userInput_value [] (addMessage You (Some ans) s))
  else s.

(** The listener of an option button (lines 88-91). *)
Definition optionClicked (opt : jsstring) (s : state) : state :=
  sendAnswer opt (addMessage You (Some opt) s).

(** What can happen to the page.  A disabled control raises no click. *)
Inductive event :=
  | DOMContentLoaded
  | TypeText (text : jsstring)
  | ClickSubmit
  | ClickReset
  | ClickOption (i : nat)
  | Settle (i : nat) (o : outcome).

Definition settle (t : task) (o : outcome) (s : state) : state :=
  match t with
  | AwaitNextQuestion k => getNextQuestion_settled k o s
  | AwaitAnswer => sendAnswer_settled o s
  | AwaitReset => resetRecommender_settled o s
  end.

Definition step (e : event) (s : state) : state :=
  match e with
  | DOMContentLoaded => getNextQuestion Top s
  | TypeText text =>
      if userInput_disabled s then s else set_userInput_value text s
  | ClickSubmit =>
      if submitButton_disabled s then s else handleSubmit s
  | ClickReset => resetRecommender s
  | ClickOption i =>
      match optionsDiv s !! i with
      | Some btn => if disabled btn then s else optionClicked (textContent btn) s
      | None => s
      end
  | Settle i o =>
      match inflight s !! i with
      | Some t => settle t o (set_inflight (delete i (inflight s)) s)
      | None => s
      end
  end.

Definition run (es : list event) (s : state) : state :=
  foldl (fun s e => step e s) s es.

(** The states the page goes through. *)
Inductive reachable : state -> Prop :=
  | reachable_loaded uid : reachable (loaded uid)
  | reachable_step e s : reachable s -> reachable (step e s).

(** No call is out and the flag is down; one call is out and the flag
    is up. *)
Definition idle (s : state) : Prop :=
  isFetching s = false ∧ inflight s = [].

Definition busy (s : state) : Prop :=
  isFetching s = true ∧ ∃ t, inflight s = [t].

End VariantA.

(** ** Variant B (lines 188-276) *)

Module VariantB.

Record state := {
  userId : jsstring;
  conversationDiv : list element;
  userInput_value : jsstring;
  requests : list request;      (* every call of fetch, oldest first *)
  inflight : nat                (* calls of sendChat that have not settled *)
}.

Definition set_conversationDiv (c : list element) (s : state) : state :=
  {| userId := userId s; conversationDiv := c;
     userInput_value := userInput_value s;
     requests := requests s; inflight := inflight s |}.

Definition set_userInput_value (v : jsstring) (s : state) : state :=
  {| userId := userId s; conversationDiv := conversationDiv s;
     userInput_value := v;
     requests := requests s; inflight := inflight s |}.

Definition set_inflight (n : nat) (s : state) : state :=
  {| userId := userId s; conversationDiv := conversationDiv s;
     userInput_value := userInput_value s;
     requests := requests s; inflight := n |}.

Definition fetch (r : request) (s : state) : state :=
  {| userId := userId s; conversationDiv := conversationDiv s;
     userInput_value := userInput_value s;
     requests := requests s ++ [r]; inflight := S (inflight s) |}.

Definition loaded (uid : jsstring) : state :=
  {| userId := uid; conversationDiv := []; userInput_value := [];
     requests := []; inflight := 0%nat |}.

(** The script up to its listeners (lines 188-208). *)
Definition start (now : Z) (ls : storage) : state * storage :=
  (loaded (loadUserId now ls).1, (loadUserId now ls).2).

(** [addMessage] (lines 210-216) *)
Definition addMessage (who : sender) (text : option jsstring) (s : state) : state :=
  set_conversationDiv (appendMessage who text (conversationDiv s)) s.

Definition optionButtonClass : jsstring := lit "option-button".

Definition newOptionButton (opt : jsstring) : element :=
  {| tagName := TagButton; textContent := opt;
     classList := [optionButtonClass]; disabled := false |}.

(** [document.querySelectorAll(".option-button").forEach(btn => btn.remove())]
    (lines 220 and 265); the script puts such buttons in
    [conversationDiv] only. *)
Definition removeOptionButtons (s : state) : state :=
  set_conversationDiv
    (filter (fun e => has_class optionButtonClass e = false) (conversationDiv s)) s.

(** [addOptionButtons] (lines 218-234) *)
Definition addOptionButtons (options : list jsstring) (s : state) : state :=
  let s1 := removeOptionButtons s in
  set_conversationDiv (conversationDiv s1 ++ map newOptionButton options) s1.

Definition conversationRequest (text : jsstring) (s : state) : request :=
  {| req_method := POST;
     req_url := serverUrl ++ lit "/conversation?user_id=" ++ userId s;
     req_json := Some (lit "message", text) |}.

(** [sendChat] up to its [await] (lines 245-251): no flag is looked at. *)
Definition sendChat (text : jsstring) (s : state) : state :=
  fetch (conversationRequest text s) s.

(** [sendChat] from the response on (lines 252-270). *)
Definition sendChat_settled (o : outcome) (s : state) : state :=
  match o with
  | Json data =>
      if truthy (r_error data) then addMessage System (r_error data) s
      else
        let s1 := addMessage AI (r_message data) s in
        match r_options data with
        | Some ((_ :: _) as options) => addOptionButtons options s1
        | Some [] | None => removeOptionButtons s1
        end
  | Rejected | JsonNull =>
      addMessage System (Some (lit "Error connecting to server.")) s
  end.

(** [handleSend] (lines 236-243) *)
Definition handleSend (s : state) : state :=
  let text := trim (userInput_value s) in
  if negb (truthy (Some text)) then s
  else sendChat text (set_userInput_value [] (addMessage You (Some text) s)).

(** [handleReset] (lines 273-276) *)
Definition handleReset (s : state) : state :=
  sendChat (lit "reset") (addMessage You (Some (lit "reset")) s).

(** The listener of an option button (lines 226-229). *)
Definition optionClicked (opt : jsstring) (s : state) : state :=
  sendChat opt (addMessage You (Some opt) s).

Inductive event :=
  | TypeText (text : jsstring)
  | ClickSubmit
  | KeyDown (isEnter : bool)
  | ClickReset
  | ClickOption (i : nat)       (* the i-th child of conversationDiv *)
  | Settle (o : outcome).

Definition step (e : event) (s : state) : state :=
  match e with
  | TypeText text => set_userInput_value text s
  | ClickSubmit => handleSend s
  | KeyDown isEnter => if isEnter then handleSend s else s
  | ClickReset => handleReset s
  | ClickOption i =>
      match conversationDiv s !! i with
      | Some e =>
          if is_button e && has_class optionButtonClass e
          then optionClicked (textContent e) s else s
      | None => s
      end
  | Settle o =>
      match inflight s with
      | S n => sendChat_settled o (set_inflight n s)
      | O => s
      end
  end.

Definition run (es : list event) (s : state) : state :=
  foldl (fun s e => step e s) s es.

(** What the user sees of the options: the texts of the option buttons,
    in page order. *)
Definition shownOptions (s : state) : list jsstring :=
  map textContent
      (filter (fun e => has_class optionButtonClass e = true) (conversationDiv s)).

(** The rest of the children of [conversationDiv]. *)
Definition shownLines (s : state) : list element :=
  filter (fun e => has_class optionButtonClass e = false) (conversationDiv s).

End VariantB.

(** ** Vocabulary of the further properties *)

(** [pieces.join(",")], the inverse of [split]. *)
Definition join (sep : N) (pieces : list jsstring) : jsstring :=
  match pieces with
  | [] => []
  | p :: ps => p ++ flat_map (fun q => sep :: q) ps
  end.

(** No white space at either end. *)
Definition trimmed (s : jsstring) : Prop :=
  (∀ c, head s = Some c → is_ws c = false)
  ∧ (∀ c, last s = Some c → is_ws c = false).

(** The text of a request body, when there is one. *)
Definition sentText (r : request) : option jsstring :=
  snd <$> req_json r.

(** The lines of the user in a transcript. *)
Definition youLines (children : list element) : list element :=
  filter (fun e => classList e = [lit "you"]) children.

(** What a settled call of variant A may leave enabled option buttons
    behind: only a decoded response to fetch-next-prompt draws new ones. *)
Definition draws_options (t : VariantA.task) (o : outcome) : bool :=
  match t, o with
  | VariantA.AwaitNextQuestion _, Json _ => true
  | _, _ => false
  end.

(** A handler called by the user or the browser, as opposed to a call
    that settles. *)
Definition is_settle (e : VariantA.event) : bool :=
  match e with
  | VariantA.Settle _ _ => true
  | _ => false
  end.

(** In variant A the input and the submit button are disabled exactly
    while the flag is up, the option row holds buttons only, and they
    are all disabled while the flag is up. *)
Definition controls_follow_gate (s : VariantA.state) : Prop :=
  VariantA.userInput_disabled s = VariantA.isFetching s
  ∧ VariantA.submitButton_disabled s = VariantA.isFetching s
  ∧ Forall (fun e => is_button e = true) (VariantA.optionsDiv s)
  ∧ (VariantA.isFetching s = true →
     Forall (fun e => disabled e = true) (VariantA.optionsDiv s)).

(** The line of the [catch] block of variant A. *)
Definition unableLine : element :=
  newLine System (Some (lit "Unable to connect to server.")).

(** * Properties *)

(** ** The identity store *)

Lemma uint_cus_nonempty (u : Decimal.uint) : u ≠ Decimal.Nil → uint_cus u ≠ [].
Proof. destruct u; simpl; congruence. Qed.

Lemma numberToString_truthy (z : Z) : truthy (Some (numberToString z)) = true.
Proof.
  assert (numberToString z ≠ []) as Hne.
  { unfold numberToString.
    destruct z as [|p|p]; simpl; try discriminate;
      try apply uint_cus_nonempty; apply Unsigned.to_uint_nonnil. }
  simpl. destruct (numberToString z); congruence.
Qed.

Lemma loadUserId_stored (now : Z) (ls : storage) (v : jsstring) :
  ls !! userIdKey = Some v → truthy (Some v) = true → loadUserId now ls = (v, ls).
Proof. intros Hls Hv. unfold loadUserId. rewrite Hls, Hv. reflexivity. Qed.

(** C8. With nothing stored under the key, the identity store makes the
    decimal form of the current time in milliseconds, writes it under
    the key [wine_userId] and returns it; run again on the storage it
    left, at any later time, it returns that same value and leaves the
    storage as it is. *)
Theorem identity_store_persistent (now later : Z) (ls : storage) :
  ls !! userIdKey = None →
  loadUserId now ls = (numberToString now, <[userIdKey := numberToString now]> ls)
  ∧ userIdKey = lit "wine_userId"
  ∧ (loadUserId now ls).2 !! userIdKey = Some (numberToString now)
  ∧ loadUserId later (loadUserId now ls).2 = (numberToString now, (loadUserId now ls).2).
Proof.
  intros Hls.
  assert (loadUserId now ls
          = (numberToString now, <[userIdKey := numberToString now]> ls)) as Heq.
  { unfold loadUserId. rewrite Hls. reflexivity. }
  rewrite Heq. simpl.
  split; [reflexivity|]. split; [reflexivity|].
  split; [apply lookup_insert_eq|].
  apply loadUserId_stored; [apply lookup_insert_eq | apply numberToString_truthy].
Qed.

Lemma identity_store_persistent_witness :
  loadUserId 1700000000123 ∅
  = (lit "1700000000123", <[userIdKey := lit "1700000000123"]> ∅)
  ∧ loadUserId 1800000000000 (loadUserId 1700000000123 ∅).2
    = (lit "1700000000123", (loadUserId 1700000000123 ∅).2).
Proof.
  pose proof (identity_store_persistent 1700000000123 1800000000000 ∅
                (lookup_empty userIdKey)) as (H1 & _ & _ & H4).
  split; [exact H1 | exact H4].
Defined.

(** ** The transcript *)

Lemma foldl_addMessage_A (calls : list (sender * option jsstring)) (s : VariantA.state) :
  VariantA.conversationDiv (foldl (λ s c, VariantA.addMessage c.1 c.2 s) s calls)
  = VariantA.conversationDiv s ++ map (λ c, newLine c.1 c.2) calls.
Proof.
  revert s. induction calls as [|c calls IH]; intros s; simpl.
  - by rewrite app_nil_r.
  - rewrite IH. simpl. unfold appendMessage. by rewrite <- app_assoc.
Qed.

Lemma foldl_addMessage_B (calls : list (sender * option jsstring)) (s : VariantB.state) :
  VariantB.conversationDiv (foldl (λ s c, VariantB.addMessage c.1 c.2 s) s calls)
  = VariantB.conversationDiv s ++ map (λ c, newLine c.1 c.2) calls.
Proof.
  revert s. induction calls as [|c calls IH]; intros s; simpl.
  - by rewrite app_nil_r.
  - rewrite IH. simpl. unfold appendMessage. by rewrite <- app_assoc.
Qed.

(** C9. After any sequence of [addMessage] calls, in either variant, the
    transcript is what it was followed by one line per call, in call
    order: as many new lines as calls, the line of a call reading
    [sender: text] and having the lowercased sender name as its one
    class; the lines that were there stay as they were. *)
Theorem transcript_append_only
    (calls : list (sender * option jsstring))
    (sA : VariantA.state) (sB : VariantB.state) :
  let lines := map (λ c, newLine c.1 c.2) calls in
  VariantA.conversationDiv (foldl (λ s c, VariantA.addMessage c.1 c.2 s) sA calls)
    = VariantA.conversationDiv sA ++ lines
  ∧ VariantB.conversationDiv (foldl (λ s c, VariantB.addMessage c.1 c.2 s) sB calls)
    = VariantB.conversationDiv sB ++ lines
  ∧ length lines = length calls
  ∧ ∀ i who text, calls !! i = Some (who, text) →
      ∃ line, lines !! i = Some line
        ∧ tagName line = TagP
        ∧ textContent line = sender_name who ++ lit ": " ++ toString text
        ∧ classList line = [toLowerCase (sender_name who)].
Proof.
  intros lines. split; [apply foldl_addMessage_A|].
  split; [apply foldl_addMessage_B|].
  split; [apply length_map|].
  intros i who text Hi. exists (newLine who text).
  split; [|done]. subst lines. rewrite list_lookup_fmap, Hi. reflexivity.
Qed.

Lemma transcript_append_only_witness :
  map textContent
    (VariantA.conversationDiv
       (foldl (λ s c, VariantA.addMessage c.1 c.2 s) (VariantA.loaded (lit "1"))
          [(AI, Some (lit "Red or white?")); (You, Some (lit "Red"))]))
  = [lit "AI: Red or white?"; lit "You: Red"]
  ∧ ∃ line,
      map (λ c, newLine c.1 c.2)
          [(AI, Some (lit "Red or white?")); (You, Some (lit "Red"))] !! 1%nat
      = Some line
      ∧ textContent line = lit "You: Red"
      ∧ classList line = [lit "you"].
Proof.
  destruct (transcript_append_only
              [(AI, Some (lit "Red or white?")); (You, Some (lit "Red"))]
              (VariantA.loaded (lit "1")) (VariantB.loaded (lit "1")))
    as (HA & _ & _ & Hline).
  split; [rewrite HA; reflexivity|].
  destruct (Hline 1%nat You (Some (lit "Red"))) as (line & Hl & _ & Htext & Hclass);
    [reflexivity|].
  exists line. split; [exact Hl|]. split; [rewrite Htext|rewrite Hclass]; reflexivity.
Defined.

(** ** Submitting the typed text *)

Lemma truthy_nonempty (v : jsstring) : truthy (Some v) = true ↔ v ≠ [].
Proof. destruct v; simpl; split; congruence. Qed.

Lemma truthy_empty (v : jsstring) : truthy (Some v) = false ↔ v = [].
Proof. destruct v; simpl; split; congruence. Qed.

(** C10. In both variants, submitting when the trimmed text of the
    input is empty changes nothing: no line, no call.  When it is not
    empty, the [You] line is appended and the input is set to the empty
    string, and only from that state is the text sent ([sendAnswer] in
    variant A, [sendChat] in variant B).  The call is then issued with
    the trimmed text: in variant B always, in variant A when no call is
    in flight (POST [/answer], one more call out, the flag up), while
    with a call in flight the guard of [sendAnswer] drops it.  The line
    is on the page and the input is empty afterwards. *)
Theorem submit_empty_or_cleared (sA : VariantA.state) (sB : VariantB.state) :
  (trim (VariantA.userInput_value sA) = [] → VariantA.handleSubmit sA = sA)
  ∧ (trim (VariantB.userInput_value sB) = [] → VariantB.handleSend sB = sB)
  ∧ (trim (VariantA.userInput_value sA) ≠ [] →
       ∃ s1, VariantA.handleSubmit sA
               = VariantA.sendAnswer (trim (VariantA.userInput_value sA)) s1
         ∧ VariantA.userInput_value s1 = []
         ∧ VariantA.conversationDiv s1
           = VariantA.conversationDiv sA
               ++ [newLine You (Some (trim (VariantA.userInput_value sA)))]
         ∧ VariantA.requests s1 = VariantA.requests sA
         ∧ VariantA.userInput_value (VariantA.handleSubmit sA) = []
         ∧ VariantA.conversationDiv (VariantA.handleSubmit sA)
           = VariantA.conversationDiv sA
               ++ [newLine You (Some (trim (VariantA.userInput_value sA)))]
         ∧ (VariantA.isFetching sA = false →
            VariantA.requests (VariantA.handleSubmit sA)
              = VariantA.requests sA
                  ++ [VariantA.answerRequest (trim (VariantA.userInput_value sA)) sA]
            ∧ VariantA.answerRequest (trim (VariantA.userInput_value sA)) sA
              = {| req_method := POST;
                   req_url := lit "http://127.0.0.1:5001/answer?user_id="
                                ++ VariantA.userId sA;
                   req_json :=
                     Some (lit "answer", trim (VariantA.userInput_value sA)) |}
            ∧ VariantA.inflight (VariantA.handleSubmit sA)
              = VariantA.inflight sA ++ [VariantA.AwaitAnswer]
            ∧ VariantA.isFetching (VariantA.handleSubmit sA) = true)
         ∧ (VariantA.isFetching sA = true →
            VariantA.requests (VariantA.handleSubmit sA) = VariantA.requests sA
            ∧ VariantA.inflight (VariantA.handleSubmit sA) = VariantA.inflight sA))
  ∧ (trim (VariantB.userInput_value sB) ≠ [] →
       ∃ s1, VariantB.handleSend sB
               = VariantB.sendChat (trim (VariantB.userInput_value sB)) s1
         ∧ VariantB.userInput_value s1 = []
         ∧ VariantB.conversationDiv s1
           = VariantB.conversationDiv sB
               ++ [newLine You (Some (trim (VariantB.userInput_value sB)))]
         ∧ VariantB.requests s1 = VariantB.requests sB
         ∧ VariantB.requests (VariantB.handleSend sB)
           = VariantB.requests sB
               ++ [VariantB.conversationRequest (trim (VariantB.userInput_value sB)) s1]
         ∧ VariantB.userInput_value (VariantB.handleSend sB) = []
         ∧ VariantB.requests (VariantB.handleSend sB)
           = VariantB.requests sB
               ++ [{| req_method := POST;
                      req_url := lit "http://127.0.0.1:5001/conversation?user_id="
                                   ++ VariantB.userId sB;
                      req_json :=
                        Some (lit "message", trim (VariantB.userInput_value sB)) |}]
         ∧ VariantB.conversationDiv (VariantB.handleSend sB)
           = VariantB.conversationDiv sB
               ++ [newLine You (Some (trim (VariantB.userInput_value sB)))]
         ∧ VariantB.inflight (VariantB.handleSend sB) = S (VariantB.inflight sB)).
Proof.
  split; [|split; [|split]].
  - intros He. unfold VariantA.handleSubmit. by rewrite He.
  - intros He. unfold VariantB.handleSend. by rewrite He.
  - intros Hne. apply truthy_nonempty in Hne.
    eexists. unfold VariantA.handleSubmit. rewrite Hne.
    split; [reflexivity|]. split; [done|]. split; [done|]. split; [done|].
    unfold VariantA.sendAnswer. simpl.
    split; [by destruct (VariantA.isFetching sA)|].
    split; [by destruct (VariantA.isFetching sA)|].
    split; intros Hf; rewrite Hf; done.
  - intros Hne. apply truthy_nonempty in Hne.
    eexists. unfold VariantB.handleSend. rewrite Hne. simpl.
    split; [reflexivity|]. by repeat split.
Qed.

Lemma submit_empty_or_cleared_witness :
  VariantA.handleSubmit (VariantA.set_userInput_value (lit "   ") (VariantA.loaded (lit "1")))
    = VariantA.set_userInput_value (lit "   ") (VariantA.loaded (lit "1"))
  ∧ VariantA.requests
      (VariantA.handleSubmit
         (VariantA.set_userInput_value (lit " dry ") (VariantA.loaded (lit "1"))))
    = [{| req_method := POST;
          req_url := lit "http://127.0.0.1:5001/answer?user_id=1";
          req_json := Some (lit "answer", lit "dry") |}]
  ∧ VariantA.userInput_value
      (VariantA.handleSubmit
         (VariantA.set_userInput_value (lit " dry ") (VariantA.loaded (lit "1"))))
    = []
  ∧ VariantB.requests
      (VariantB.handleSend
         (VariantB.set_userInput_value (lit " sweet ") (VariantB.loaded (lit "1"))))
    = [{| req_method := POST;
          req_url := lit "http://127.0.0.1:5001/conversation?user_id=1";
          req_json := Some (lit "message", lit "sweet") |}]
  ∧ VariantB.userInput_value
      (VariantB.handleSend
         (VariantB.set_userInput_value (lit " sweet ") (VariantB.loaded (lit "1"))))
    = [].
Proof.
  destruct (submit_empty_or_cleared
              (VariantA.set_userInput_value (lit "   ") (VariantA.loaded (lit "1")))
              (VariantB.set_userInput_value (lit " sweet ") (VariantB.loaded (lit "1"))))
    as (HA & _ & _ & HB).
  destruct (submit_empty_or_cleared
              (VariantA.set_userInput_value (lit " dry ") (VariantA.loaded (lit "1")))
              (VariantB.loaded (lit "1")))
    as (_ & _ & HA' & _).
  split; [apply HA; reflexivity|].
  destruct HA' as (s1 & _ & _ & _ & _ & HinA & _ & HreqA & _); [simpl; discriminate|].
  destruct HreqA as (HreqA & Hshape & _); [reflexivity|].
  split; [rewrite HreqA, Hshape; reflexivity|]. split; [exact HinA|].
  destruct HB as (s2 & _ & _ & _ & _ & _ & HinB & HreqB & _); [simpl; discriminate|].
  split; [rewrite HreqB; reflexivity|exact HinB].
Defined.

(** ** The option buttons of variant B *)

Lemma has_class_newOptionButton (opt : jsstring) :
  has_class VariantB.optionButtonClass (VariantB.newOptionButton opt) = true.
Proof. reflexivity. Qed.

Lemma filter_buttons_new (options : list jsstring) :
  filter (λ e, has_class VariantB.optionButtonClass e = true)
         (map VariantB.newOptionButton options)
  = map VariantB.newOptionButton options.
Proof.
  induction options as [|o options IH]; [done|].
  simpl. rewrite filter_cons_True by apply has_class_newOptionButton.
  by rewrite IH.
Qed.

Lemma filter_lines_new (options : list jsstring) :
  filter (λ e, has_class VariantB.optionButtonClass e = false)
         (map VariantB.newOptionButton options)
  = [].
Proof.
  induction options as [|o options IH]; [done|].
  simpl. rewrite filter_cons_False; [exact IH|].
  rewrite has_class_newOptionButton. discriminate.
Qed.

Lemma filter_buttons_lines (l : list element) :
  filter (λ e, has_class VariantB.optionButtonClass e = true)
         (filter (λ e, has_class VariantB.optionButtonClass e = false) l)
  = [].
Proof.
  induction l as [|e l IH]; [done|].
  destruct (has_class VariantB.optionButtonClass e) eqn:He.
  - rewrite filter_cons_False; [exact IH|]. rewrite He. discriminate.
  - rewrite filter_cons_True by exact He.
    rewrite filter_cons_False; [exact IH|]. rewrite He. discriminate.
Qed.

Lemma filter_lines_idemp (l : list element) :
  filter (λ e, has_class VariantB.optionButtonClass e = false)
         (filter (λ e, has_class VariantB.optionButtonClass e = false) l)
  = filter (λ e, has_class VariantB.optionButtonClass e = false) l.
Proof.
  induction l as [|e l IH]; [done|].
  destruct (has_class VariantB.optionButtonClass e) eqn:He.
  - rewrite filter_cons_False; [exact IH|]. rewrite He. discriminate.
  - rewrite !filter_cons_True by exact He. by rewrite IH.
Qed.

Lemma shownOptions_removeOptionButtons (s : VariantB.state) :
  VariantB.shownOptions (VariantB.removeOptionButtons s) = [].
Proof.
  unfold VariantB.shownOptions, VariantB.removeOptionButtons. simpl.
  by rewrite filter_buttons_lines.
Qed.

Lemma shownLines_removeOptionButtons (s : VariantB.state) :
  VariantB.shownLines (VariantB.removeOptionButtons s) = VariantB.shownLines s.
Proof.
  unfold VariantB.shownLines, VariantB.removeOptionButtons. simpl.
  apply filter_lines_idemp.
Qed.

Lemma shownOptions_addOptionButtons (options : list jsstring) (s : VariantB.state) :
  VariantB.shownOptions (VariantB.addOptionButtons options s) = options.
Proof.
  unfold VariantB.shownOptions, VariantB.addOptionButtons,
    VariantB.removeOptionButtons. simpl.
  rewrite filter_app, filter_buttons_lines, filter_buttons_new. simpl.
  rewrite map_map. simpl. apply map_id.
Qed.

Lemma shownLines_addOptionButtons (options : list jsstring) (s : VariantB.state) :
  VariantB.shownLines (VariantB.addOptionButtons options s) = VariantB.shownLines s.
Proof.
  unfold VariantB.shownLines, VariantB.addOptionButtons,
    VariantB.removeOptionButtons. simpl.
  by rewrite filter_app, filter_lines_idemp, filter_lines_new, app_nil_r.
Qed.

Lemma shownOptions_addMessage (who : sender) (text : option jsstring) (s : VariantB.state) :
  VariantB.shownOptions (VariantB.addMessage who text s) = VariantB.shownOptions s.
Proof.
  unfold VariantB.shownOptions, VariantB.addMessage, appendMessage. simpl.
  rewrite filter_app. rewrite (filter_cons_False _ (newLine who text)).
  - by rewrite filter_nil, app_nil_r.
  - by destruct who.
Qed.

Lemma shownOptions_sendChat_settled_ok (data : response) (s : VariantB.state) :
  truthy (r_error data) = false →
  VariantB.shownOptions (VariantB.sendChat_settled (Json data) s)
  = default [] (r_options data).
Proof.
  intros He. unfold VariantB.sendChat_settled. rewrite He.
  destruct (r_options data) as [[|o options]|].
  - apply shownOptions_removeOptionButtons.
  - apply (shownOptions_addOptionButtons (o :: options)).
  - apply shownOptions_removeOptionButtons.
Qed.

Lemma shownOptions_sendChat_settled_error (data : response) (s : VariantB.state) :
  truthy (r_error data) = true →
  VariantB.shownOptions (VariantB.sendChat_settled (Json data) s)
  = VariantB.shownOptions s.
Proof.
  intros He. unfold VariantB.sendChat_settled. rewrite He.
  apply shownOptions_addMessage.
Qed.

(** C7, as the script has it.  In variant B every render of an option
    list replaces the option buttons on the page: [addOptionButtons]
    leaves exactly the buttons of its list, in order, and the other
    children of the transcript as they were, so [Red, White] and then
    [Rosé] leaves the one button [Rosé].  A response without an error
    (the field absent or empty) leaves exactly the buttons of its
    [options], none when that list is absent or empty.  A response with
    an error returns before the options are looked at and leaves the
    buttons as they are. *)
Theorem option_render_replaces
    (options : list jsstring) (data : response) (s : VariantB.state) :
  VariantB.shownOptions (VariantB.addOptionButtons options s) = options
  ∧ VariantB.shownLines (VariantB.addOptionButtons options s) = VariantB.shownLines s
  ∧ VariantB.shownOptions
      (VariantB.addOptionButtons [lit "Ros" ++ [233]]
         (VariantB.addOptionButtons [lit "Red"; lit "White"] s))
    = [lit "Ros" ++ [233]]
  ∧ (truthy (r_error data) = false →
       VariantB.shownOptions (VariantB.sendChat_settled (Json data) s)
       = default [] (r_options data))
  ∧ (truthy (r_error data) = true →
       VariantB.shownOptions (VariantB.sendChat_settled (Json data) s)
       = VariantB.shownOptions s).
Proof.
  split; [apply shownOptions_addOptionButtons|].
  split; [apply shownLines_addOptionButtons|].
  split; [apply shownOptions_addOptionButtons|].
  split; [apply shownOptions_sendChat_settled_ok
         |apply shownOptions_sendChat_settled_error].
Qed.

Lemma option_render_replaces_witness :
  VariantB.shownOptions
    (VariantB.sendChat_settled
       (Json {| r_error := None; r_message := Some (lit "Noted.");
                r_done := None; r_options := None |})
       (VariantB.addOptionButtons [lit "Red"; lit "White"] (VariantB.loaded (lit "1"))))
  = []
  ∧ VariantB.shownOptions
      (VariantB.sendChat_settled
         (Json {| r_error := Some (lit "Session expired");
                  r_message := None; r_done := None; r_options := None |})
         (VariantB.addOptionButtons [lit "Red"; lit "White"] (VariantB.loaded (lit "1"))))
    = [lit "Red"; lit "White"].
Proof.
  split.
  - apply (option_render_replaces []
             {| r_error := None; r_message := Some (lit "Noted.");
                r_done := None; r_options := None |}).
    reflexivity.
  - destruct (option_render_replaces []
             {| r_error := Some (lit "Session expired");
                r_message := None; r_done := None; r_options := None |}
             (VariantB.addOptionButtons [lit "Red"; lit "White"]
                (VariantB.loaded (lit "1")))) as (_ & _ & _ & _ & H).
    rewrite H; reflexivity.
Defined.

(** C7 as the claim has it fails: the user has the buttons [Red] and
    [White], clicks [Red], and the server answers with an error and no
    [options]; the two buttons are still there. *)
Lemma error_response_keeps_options :
  let s :=
    VariantB.run
      [VariantB.TypeText (lit "sweet"); VariantB.ClickSubmit;
       VariantB.Settle
         (Json {| r_error := None; r_message := Some (lit "Red or white?");
                  r_done := None; r_options := Some [lit "Red"; lit "White"] |});
       VariantB.ClickOption 2]
      (VariantB.loaded (lit "1")) in
  let data := {| r_error := Some (lit "Session expired"); r_message := None;
                 r_done := None; r_options := None |} in
  VariantB.shownOptions s = [lit "Red"; lit "White"]
  ∧ r_options data = None
  ∧ VariantB.shownOptions (VariantB.step (VariantB.Settle (Json data)) s)
    = [lit "Red"; lit "White"]
  ∧ map textContent (VariantB.conversationDiv (VariantB.step (VariantB.Settle (Json data)) s))
    = [lit "You: sweet"; lit "AI: Red or white?"; lit "Red"; lit "White";
       lit "You: Red"; lit "System: Session expired"].
Proof. vm_compute. repeat split. Qed.

(** ** The options of variant A *)

Lemma starts_with_ci_spec (pat s rest : jsstring) :
  starts_with_ci pat s = Some rest
  ↔ ∃ mk, s = mk ++ rest ∧ toLowerCase mk = toLowerCase pat.
Proof.
  revert s. induction pat as [|p pat IH]; intros s; simpl.
  - split.
    + intros [= ->]. by exists [].
    + intros (mk & -> & Hmk). by destruct mk.
  - destruct s as [|c s].
    + split; [done|]. intros (mk & Hs & Hmk). by destruct mk.
    + destruct (N.eqb_spec (lower_cu p) (lower_cu c)) as [Heq|Hne].
      * rewrite IH. split.
        -- intros (mk & -> & Hmk). exists (c :: mk). simpl. by rewrite Hmk, Heq.
        -- intros (mk & Hs & Hmk). destruct mk as [|c' mk]; [done|].
           simpl in Hs, Hmk. injection Hs as -> ->. injection Hmk as _ Hmk.
           by exists mk.
      * split; [done|]. intros (mk & Hs & Hmk). destruct mk as [|c' mk]; [done|].
        simpl in Hs, Hmk. injection Hs as -> ->. injection Hmk as Hc _. done.
Qed.

Lemma marker_at_starts (i : nat) (text rest : jsstring) :
  marker_at i text rest ↔ starts_with_ci marker (drop i text) = Some rest.
Proof. unfold marker_at. by rewrite starts_with_ci_spec. Qed.

Lemma marker_at_0 (text rest : jsstring) :
  marker_at 0 text rest ↔ starts_with_ci marker text = Some rest.
Proof. apply (marker_at_starts 0). Qed.

Lemma marker_at_S (i : nat) (c : N) (text rest : jsstring) :
  marker_at (S i) (c :: text) rest ↔ marker_at i text rest.
Proof. reflexivity. Qed.

Lemma marker_at_nil (i : nat) (rest : jsstring) : ¬ marker_at i [] rest.
Proof.
  intros (mk & Hd & Hmk). rewrite drop_nil in Hd.
  destruct mk; [discriminate Hmk | discriminate Hd].
Qed.

Lemma find_marker_unfold (text : jsstring) :
  find_marker text =
  match starts_with_ci marker text with
  | Some rest => Some rest
  | None => match text with [] => None | _ :: r => find_marker r end
  end.
Proof. by destruct text. Qed.

Lemma find_marker_absent (text : jsstring) :
  (∀ i rest, ¬ marker_at i text rest) → find_marker text = None.
Proof.
  induction text as [|c text IH]; intros Hno; [done|].
  rewrite find_marker_unfold.
  destruct (starts_with_ci marker (c :: text)) as [rest|] eqn:Hst.
  - exfalso. apply (Hno 0%nat rest). by apply marker_at_0.
  - apply IH. intros i rest Hi. apply (Hno (S i) rest). by apply marker_at_S.
Qed.

Lemma find_marker_first (i : nat) (text rest : jsstring) :
  marker_at i text rest →
  (∀ j r, (j < i)%nat → ¬ marker_at j text r) →
  find_marker text = Some rest.
Proof.
  revert text. induction i as [|i IH]; intros text Hi Hfirst.
  - apply marker_at_0 in Hi. rewrite find_marker_unfold. by rewrite Hi.
  - rewrite find_marker_unfold.
    destruct (starts_with_ci marker text) as [r|] eqn:Hst.
    + exfalso. apply (Hfirst 0%nat r); [lia|]. by apply marker_at_0.
    + destruct text as [|c text]; [by apply marker_at_nil in Hi|].
      apply IH; [by apply marker_at_S in Hi|].
      intros j r Hj Hm. apply (Hfirst (S j) r); [lia|]. by apply marker_at_S.
Qed.

Lemma find_marker_found (text rest : jsstring) :
  find_marker text = Some rest →
  ∃ i, marker_at i text rest ∧ ∀ j r, (j < i)%nat → ¬ marker_at j text r.
Proof.
  induction text as [|c text IH]; [done|].
  rewrite find_marker_unfold.
  destruct (starts_with_ci marker (c :: text)) as [r|] eqn:Hst.
  - intros [= ->]. exists 0%nat. split; [by apply marker_at_0|]. lia.
  - intros Hf. destruct (IH Hf) as (i & Hi & Hfirst). exists (S i). split.
    + by apply marker_at_S.
    + intros [|j] r Hj Hm.
      * apply marker_at_0 in Hm. congruence.
      * apply (Hfirst j r); [lia|]. by apply marker_at_S in Hm.
Qed.

(** One piece more than there are separators. *)
Lemma length_split (sep : N) (s : jsstring) :
  length (split sep s) = S (length (filter (λ c, c = sep) s)).
Proof.
  induction s as [|c s IH]; [done|]. simpl.
  destruct (N.eqb_spec c sep) as [->|Hne].
  - rewrite filter_cons_True by done. simpl. by rewrite IH.
  - rewrite filter_cons_False by done.
    destruct (split sep s); simpl in *; lia.
Qed.

Lemma trim_ws_cons (c : N) (s : jsstring) :
  is_ws c = true → trim (c :: s) = trim s.
Proof. intros Hc. unfold trim, trimStart. simpl. by rewrite Hc. Qed.

(** White space before the first piece does not show in the options. *)
Lemma parseOptions_skip_ws (s : jsstring) :
  parseOptions (skip_ws s) = parseOptions s.
Proof.
  unfold parseOptions. induction s as [|c s IH]; [done|]. simpl.
  destruct (is_ws c) eqn:Hws; [|done].
  destruct (N.eqb_spec c comma) as [->|_]; [by vm_compute in Hws|].
  rewrite IH. pose proof (length_split comma s) as Hlen.
  destruct (split comma s) as [|p ps]; [done|].
  simpl. by rewrite trim_ws_cons.
Qed.

(** The capture is the rest of the marker's line, white space at its
    start aside, unless that rest is blank and another line follows. *)
Lemma take_line_skip_ws (rest : jsstring) :
  skip_ws (take_line rest) ≠ [] ∨ take_line rest = rest →
  take_line (skip_ws rest) = skip_ws (take_line rest).
Proof.
  induction rest as [|c rest IH]; [done|]. simpl.
  destruct (is_line_terminator c) eqn:Hlt.
  - intros [H|H]; done.
  - simpl. destruct (is_ws c) eqn:Hws.
    + intros [H|H]; apply IH; [by left|right; congruence].
    + intros _. simpl. by rewrite Hlt.
Qed.

Lemma optionsDiv_getNextQuestion_settled
    (k : VariantA.caller) (data : response) (s : VariantA.state) :
  VariantA.optionsDiv (VariantA.getNextQuestion_settled k (Json data) s)
  = match matchOptions (VariantA.messageText data) with
    | Some optionsStr => map VariantA.newOptionButton (parseOptions optionsStr)
    | None => []
    end.
Proof.
  unfold VariantA.getNextQuestion_settled, VariantA.messageText.
  destruct k, (truthy (r_error data)), (matchOptions _); reflexivity.
Qed.

(** C5, as the script has it.  After a response to fetch-next-prompt,
    the option buttons are these.  If the marker [Options:] stands
    nowhere in the message, in any case, there is none.  Otherwise take
    what follows the first marker, skip the white space there (line
    breaks too) and keep the text up to the end of that line: it is
    split on commas, each piece is trimmed, and every piece gets a
    button, an empty piece too, so there is one button more than there
    are commas.  Unless the rest of the marker's line is blank and
    another line follows, these are the trimmed pieces of the rest of
    the marker's line.  The message of the example gives [Red], [White],
    [Rosé]. *)
Theorem options_from_message
    (k : VariantA.caller) (data : response) (s : VariantA.state) :
  let text := VariantA.messageText data in
  let shown := VariantA.optionsDiv (VariantA.getNextQuestion_settled k (Json data) s) in
  ((∀ i rest, ¬ marker_at i text rest) → shown = [])
  ∧ (∀ i rest,
       marker_at i text rest → (∀ j r, (j < i)%nat → ¬ marker_at j text r) →
       shown = map VariantA.newOptionButton
                   (map trim (split comma (take_line (skip_ws rest))))
       ∧ length shown
         = S (length (filter (λ c, c = comma) (take_line (skip_ws rest))))
       ∧ (skip_ws (take_line rest) ≠ [] ∨ take_line rest = rest →
          shown = map VariantA.newOptionButton
                      (map trim (split comma (take_line rest)))))
  ∧ map textContent
      (VariantA.optionsDiv
         (VariantA.getNextQuestion_settled k
            (Json {| r_error := None;
                     r_message :=
                       Some (lit "Pick a color. Options: Red, White, Ros" ++ [233]);
                     r_done := None; r_options := None |}) s))
    = [lit "Red"; lit "White"; lit "Ros" ++ [233]].
Proof.
  intros text shown. subst shown.
  rewrite !optionsDiv_getNextQuestion_settled. fold text.
  split; [|split].
  - intros Hno. unfold matchOptions. by rewrite find_marker_absent.
  - intros i rest Hi Hfirst. unfold matchOptions.
    rewrite (find_marker_first i text rest Hi Hfirst).
    split; [reflexivity|]. split.
    + unfold parseOptions. by rewrite !length_map, length_split.
    + intros Hline. unfold parseOptions at 1.
      change (map trim (split comma (take_line (skip_ws rest))))
        with (parseOptions (take_line (skip_ws rest))).
      by rewrite take_line_skip_ws, parseOptions_skip_ws.
  - vm_compute. reflexivity.
Qed.

Lemma options_from_message_witness :
  VariantA.optionsDiv
    (VariantA.getNextQuestion_settled VariantA.Top
       (Json {| r_error := None; r_message := Some (lit "Wine? options: Red,, White ");
                r_done := None; r_options := None |})
       (VariantA.loaded (lit "1")))
  = map VariantA.newOptionButton [lit "Red"; []; lit "White"].
Proof.
  destruct (options_from_message VariantA.Top
              {| r_error := None; r_message := Some (lit "Wine? options: Red,, White ");
                 r_done := None; r_options := None |}
              (VariantA.loaded (lit "1"))) as (_ & H & _).
  destruct (H 6%nat (lit " Red,, White ")) as (_ & _ & Hline).
  - exists (lit "options:"). split; reflexivity.
  - intros j r Hj Hm. apply marker_at_starts in Hm.
    do 6 (destruct j as [|j]; [vm_compute in Hm; discriminate|]). lia.
  - rewrite Hline; [reflexivity|]. left. vm_compute. discriminate.
Defined.

(** C5 as the claim has it fails on an empty piece, which gets a button
    like any other, and on a marker at the end of its line, after which
    the next line is taken. *)
Lemma empty_piece_gets_button :
  map textContent
    (VariantA.optionsDiv
       (VariantA.run
          [VariantA.DOMContentLoaded;
           VariantA.Settle 0
             (Json {| r_error := None; r_message := Some (lit "Options: Red,,White");
                      r_done := None; r_options := None |})]
          (VariantA.loaded (lit "1"))))
  = [lit "Red"; []; lit "White"]
  ∧ map textContent
      (VariantA.optionsDiv
         (VariantA.run
            [VariantA.DOMContentLoaded;
             VariantA.Settle 0
               (Json {| r_error := None;
                        r_message := Some (lit "Options:" ++ [10] ++ lit "Red");
                        r_done := None; r_options := None |})]
            (VariantA.loaded (lit "1"))))
    = [lit "Red"].
Proof. vm_compute. split; reflexivity. Qed.

(** ** The request gate of variant A *)

Section Gate.
Import VariantA.

Lemma finally_clears (s : state) :
  isFetching (finally s) = false
  ∧ userInput_disabled (finally s) = false
  ∧ submitButton_disabled (finally s) = false
  ∧ inflight (finally s) = inflight s
  ∧ requests (finally s) = requests s.
Proof. done. Qed.

Lemma resume_finally (k : caller) (s : state) :
  resume k (finally s) = finally s.
Proof. by destruct k. Qed.

(** A call of [getNextQuestion] made while the flag is up returns at
    once, and its caller goes on. *)
Lemma getNextQuestion_dropped (k : caller) (s : state) :
  isFetching s = true → getNextQuestion k s = resume k s.
Proof. intros H. unfold getNextQuestion. by rewrite H. Qed.

(** What is left when the call of a busy page settles: the function that
    was waiting runs to its end without another call. *)
Lemma settle_runs_to_end (t : task) (o : outcome) (s : state) :
  isFetching s = true → inflight s = [] →
  isFetching (settle t o s) = false
  ∧ userInput_disabled (settle t o s) = false
  ∧ submitButton_disabled (settle t o s) = false
  ∧ inflight (settle t o s) = []
  ∧ requests (settle t o s) = requests s.
Proof.
  intros Hf Hin. destruct t as [k| |]; simpl.
  - unfold getNextQuestion_settled. rewrite resume_finally.
    destruct o as [| |data]; [by rewrite <- Hin..|].
    destruct (truthy (r_error data)), (matchOptions _); by rewrite <- Hin.
  - unfold sendAnswer_settled.
    destruct o as [| |data]; [by rewrite <- Hin..|].
    destruct (negb _); [|by rewrite <- Hin].
    rewrite getNextQuestion_dropped by done. by rewrite <- Hin.
  - unfold resetRecommender_settled.
    destruct o as [| |data]; [by rewrite <- Hin..|].
    rewrite getNextQuestion_dropped
      by (by destruct (truthy (r_message data))).
    destruct (truthy (r_message data)); by rewrite <- Hin.
Qed.

Lemma getNextQuestion_gate (s : state) :
  busy s ∨ idle s → busy (getNextQuestion Top s) ∨ idle (getNextQuestion Top s).
Proof.
  intros [[Hf Hin]|[Hf Hin]]; unfold getNextQuestion; rewrite Hf.
  - by left.
  - left. split; [done|]. simpl. rewrite Hin. by eexists.
Qed.

Lemma sendAnswer_gate (answer : jsstring) (s : state) :
  busy s ∨ idle s → busy (sendAnswer answer s) ∨ idle (sendAnswer answer s).
Proof.
  intros [[Hf Hin]|[Hf Hin]]; unfold sendAnswer; rewrite Hf.
  - by left.
  - left. split; [done|]. simpl. rewrite Hin. by eexists.
Qed.

Lemma resetRecommender_gate (s : state) :
  busy s ∨ idle s → busy (resetRecommender s) ∨ idle (resetRecommender s).
Proof.
  intros [[Hf Hin]|[Hf Hin]]; unfold resetRecommender; rewrite Hf.
  - by left.
  - left. split; [done|]. simpl. rewrite Hin. by eexists.
Qed.

(** At most one call is out, and the flag is up exactly while it is. *)
Lemma reachable_gate (s : state) : reachable s → busy s ∨ idle s.
Proof.
  induction 1 as [uid|e s Hr IH].
  - by right.
  - destruct e as [|text| | |i|i o]; simpl.
    + by apply getNextQuestion_gate.
    + destruct (userInput_disabled s); [done|]. exact IH.
    + destruct (submitButton_disabled s); [done|].
      unfold handleSubmit. destruct (truthy _); [|done].
      apply sendAnswer_gate. exact IH.
    + by apply resetRecommender_gate.
    + destruct (optionsDiv s !! i) as [btn|]; [|done].
      destruct (disabled btn); [done|].
      apply sendAnswer_gate. exact IH.
    + destruct (inflight s !! i) as [t|] eqn:Hi; [|done].
      destruct IH as [[Hf [t' Hin]]|[Hf Hin]].
      * right. rewrite Hin in Hi |- *.
        destruct i as [|i]; [|done]. simpl.
        destruct (settle_runs_to_end t o (set_inflight [] s)) as (?&?&?&?&?);
          done.
      * by rewrite Hin in Hi.
Qed.

Lemma settle_step (s : state) (i : nat) (t : task) (o : outcome) :
  reachable s → inflight s !! i = Some t →
  step (Settle i o) s = settle t o (set_inflight [] s)
  ∧ isFetching s = true.
Proof.
  intros Hr Hi. destruct (reachable_gate s Hr) as [[Hf [t' Hin]]|[Hf Hin]].
  - simpl. rewrite Hi. rewrite Hin in Hi |- *.
    by destruct i as [|i].
  - by rewrite Hin in Hi.
Qed.

Lemma cleanup_flag (s : state) (i : nat) (t : task) (o : outcome) :
  reachable s → inflight s !! i = Some t →
  isFetching (step (Settle i o) s) = false.
Proof.
  intros Hr Hi. destruct (settle_step s i t o Hr Hi) as [-> Hf].
  destruct (settle_runs_to_end t o (set_inflight [] s)) as (?&?&?&?&?); done.
Qed.

End Gate.

(** C6. Whenever a call of variant A settles, whichever of the three
    functions was waiting for it and however it settles (a decoded body,
    with or without an error in it, the body [null], a rejected call),
    the page is left with the flag down, the input and the submit button
    enabled, and no call out. *)
Theorem cleanup_after_every_call
    (s : VariantA.state) (i : nat) (t : VariantA.task) (o : outcome) :
  VariantA.reachable s → VariantA.inflight s !! i = Some t →
  let s' := VariantA.step (VariantA.Settle i o) s in
  VariantA.isFetching s' = false
  ∧ VariantA.userInput_disabled s' = false
  ∧ VariantA.submitButton_disabled s' = false
  ∧ VariantA.inflight s' = [].
Proof.
  intros Hr Hi s'. subst s'.
  destruct (settle_step s i t o Hr Hi) as [-> Hf].
  destruct (settle_runs_to_end t o (VariantA.set_inflight [] s)) as (?&?&?&?&?);
    done.
Qed.

Lemma cleanup_after_every_call_witness :
  let s := VariantA.step VariantA.ClickReset
             (VariantA.step VariantA.DOMContentLoaded (VariantA.loaded (lit "1"))) in
  VariantA.isFetching s = true
  ∧ VariantA.userInput_disabled s = true
  ∧ VariantA.isFetching (VariantA.step (VariantA.Settle 0 Rejected) s) = false
  ∧ VariantA.userInput_disabled (VariantA.step (VariantA.Settle 0 Rejected) s) = false
  ∧ VariantA.submitButton_disabled (VariantA.step (VariantA.Settle 0 Rejected) s) = false.
Proof.
  intros s. split; [reflexivity|]. split; [reflexivity|].
  destruct (cleanup_after_every_call s 0 (VariantA.AwaitNextQuestion VariantA.Top) Rejected)
    as (H1 & H2 & H3 & _).
  - subst s. do 2 apply VariantA.reachable_step. apply VariantA.reachable_loaded.
  - reflexivity.
  - exact (conj H1 (conj H2 H3)).
Defined.

(** No call goes out when a call settles: the follow-up calls of
    [getNextQuestion] in [sendAnswer] and [resetRecommender] are made
    while the flag is still up. *)
Lemma settle_issues_no_call
    (s : VariantA.state) (i : nat) (o : outcome) :
  VariantA.reachable s →
  VariantA.requests (VariantA.step (VariantA.Settle i o) s) = VariantA.requests s.
Proof.
  intros Hr. destruct (VariantA.inflight s !! i) as [t|] eqn:Hi.
  - destruct (settle_step s i t o Hr Hi) as [-> Hf].
    destruct (settle_runs_to_end t o (VariantA.set_inflight [] s)) as (?&?&?&?&?);
      done.
  - simpl. by rewrite Hi.
Qed.

(** C2, as the script has it.  In variant A, while a call is out, each
    of the three operations returns without doing anything: the page,
    and with it the list of calls, is as it was.  Once that call has
    settled, in whatever way, each of them issues its call.  Send chat
    of variant B looks at no flag: it issues its call every time. *)
Theorem request_gate_exclusive
    (s : VariantA.state) (i : nat) (t : VariantA.task) (o : outcome)
    (answer : jsstring) (sB : VariantB.state) :
  VariantA.reachable s → VariantA.inflight s !! i = Some t →
  (VariantA.getNextQuestion VariantA.Top s = s
   ∧ VariantA.sendAnswer answer s = s
   ∧ VariantA.resetRecommender s = s)
  ∧ (let s' := VariantA.step (VariantA.Settle i o) s in
     VariantA.requests (VariantA.getNextQuestion VariantA.Top s')
       = VariantA.requests s' ++ [VariantA.nextQuestionRequest s']
     ∧ VariantA.requests (VariantA.sendAnswer answer s')
       = VariantA.requests s' ++ [VariantA.answerRequest answer s']
     ∧ VariantA.requests (VariantA.resetRecommender s')
       = VariantA.requests s' ++ [VariantA.resetRequest s'])
  ∧ VariantB.requests (VariantB.sendChat answer sB)
    = VariantB.requests sB ++ [VariantB.conversationRequest answer sB].
Proof.
  intros Hr Hi.
  destruct (settle_step s i t o Hr Hi) as [Hstep Hf]. split; [|split; [|done]].
  - unfold VariantA.getNextQuestion, VariantA.sendAnswer, VariantA.resetRecommender.
    by rewrite Hf.
  - intros s'.
    pose proof (cleanup_flag s i t o Hr Hi) as Hidle. fold s' in Hidle.
    unfold VariantA.getNextQuestion, VariantA.sendAnswer, VariantA.resetRecommender.
    by rewrite Hidle.
Qed.

Lemma request_gate_exclusive_witness :
  let s := VariantA.step VariantA.DOMContentLoaded (VariantA.loaded (lit "1")) in
  let s' := VariantA.step (VariantA.Settle 0 Rejected) s in
  VariantA.requests s = [VariantA.nextQuestionRequest s]
  ∧ VariantA.resetRecommender s = s
  ∧ VariantA.requests (VariantA.resetRecommender s')
    = [VariantA.nextQuestionRequest s; VariantA.resetRequest s].
Proof.
  intros s s'. split; [reflexivity|].
  destruct (request_gate_exclusive s 0 (VariantA.AwaitNextQuestion VariantA.Top)
              Rejected (lit "Red") (VariantB.loaded (lit "1")))
    as ((_ & _ & Hdrop) & (_ & _ & Hissue) & _).
  - subst s. apply VariantA.reachable_step. apply VariantA.reachable_loaded.
  - reflexivity.
  - split; [exact Hdrop|]. fold s' in Hissue. rewrite Hissue. reflexivity.
Defined.

(** C2 as the claim has it fails for send chat: variant B has no flag,
    and a second text sent while the first call is still out goes out as
    a second call. *)
Lemma sendChat_not_gated :
  let s :=
    VariantB.run [VariantB.TypeText (lit "sweet"); VariantB.ClickSubmit]
      (VariantB.loaded (lit "1")) in
  let s' := VariantB.run [VariantB.TypeText (lit "dry"); VariantB.ClickSubmit] s in
  VariantB.inflight s = 1%nat
  ∧ VariantB.requests s = [VariantB.conversationRequest (lit "sweet") s]
  ∧ VariantB.inflight s' = 2%nat
  ∧ VariantB.requests s'
    = [VariantB.conversationRequest (lit "sweet") s;
       VariantB.conversationRequest (lit "dry") s].
Proof. vm_compute. repeat split. Qed.

(** ** The follow-up call of variant A *)

(** C1 fails on the script.  The first question is shown, the user
    clicks [Red], and the server answers with [done] false.  The answer
    is shown; [getNextQuestion] is called (line 126) while [isFetching]
    is still up from line 110, and returns at line 61: the only calls
    ever made are the first fetch and the answer, and nothing is out. *)
Theorem answer_not_done_fetches_nothing :
  let s0 :=
    VariantA.run
      [VariantA.DOMContentLoaded;
       VariantA.Settle 0
         (Json {| r_error := None;
                  r_message := Some (lit "Pick a color. Options: Red, White");
                  r_done := None; r_options := None |})]
      (VariantA.loaded (lit "1")) in
  let s1 := VariantA.step (VariantA.ClickOption 0) s0 in
  let s2 :=
    VariantA.step
      (VariantA.Settle 0
         (Json {| r_error := None; r_message := Some (lit "Noted.");
                  r_done := Some false; r_options := None |})) s1 in
  VariantA.requests s1
    = [VariantA.nextQuestionRequest s0; VariantA.answerRequest (lit "Red") s0]
  ∧ VariantA.requests s2 = VariantA.requests s1
  ∧ VariantA.inflight s2 = []
  ∧ VariantA.isFetching s2 = false
  ∧ map textContent (VariantA.conversationDiv s2)
    = [lit "AI: Pick a color. Options: Red, White"; lit "You: Red"; lit "AI: Noted."].
Proof. vm_compute. repeat split. Qed.

(** C4 fails on the script in its last part.  With a transcript, two
    options and a typed text on the page, the user clicks reset and the
    server confirms.  The transcript, the options and the input are
    cleared and the confirmation is shown; [getNextQuestion] is called
    (line 166) while [isFetching] is still up from line 143, and returns
    at line 61: no call to [/next_question] follows the reset. *)
Theorem reset_fetches_nothing :
  let s0 :=
    VariantA.run
      [VariantA.DOMContentLoaded;
       VariantA.Settle 0
         (Json {| r_error := None;
                  r_message := Some (lit "Pick a color. Options: Red, White");
                  r_done := None; r_options := None |});
       VariantA.TypeText (lit "dry")]
      (VariantA.loaded (lit "1")) in
  let s1 := VariantA.step VariantA.ClickReset s0 in
  let s2 :=
    VariantA.step
      (VariantA.Settle 0
         (Json {| r_error := None; r_message := Some (lit "Session reset.");
                  r_done := None; r_options := None |})) s1 in
  VariantA.requests s1
    = [VariantA.nextQuestionRequest s0; VariantA.resetRequest s0]
  ∧ map textContent (VariantA.conversationDiv s2) = [lit "System: Session reset."]
  ∧ VariantA.optionsDiv s2 = []
  ∧ VariantA.userInput_value s2 = []
  ∧ VariantA.requests s2 = VariantA.requests s1
  ∧ VariantA.inflight s2 = []
  ∧ VariantA.isFetching s2 = false.
Proof. vm_compute. repeat split. Qed.

(** ** Errors reported by the server *)

(** C3, as the script has it.  A response to fetch-next-prompt
    (variant A) or to send chat (variant B) whose [error] is a string
    that is not empty adds exactly one line to the transcript, the
    [System] line with that string; no [AI] line is added for it. *)
Theorem server_error_shown_as_system
    (e : jsstring) (data : response) (k : VariantA.caller)
    (sA : VariantA.state) (sB : VariantB.state) :
  r_error data = Some e → e ≠ [] →
  VariantA.conversationDiv (VariantA.getNextQuestion_settled k (Json data) sA)
    = VariantA.conversationDiv sA ++ [newLine System (Some e)]
  ∧ VariantB.conversationDiv (VariantB.sendChat_settled (Json data) sB)
    = VariantB.conversationDiv sB ++ [newLine System (Some e)]
  ∧ textContent (newLine System (Some e)) = lit "System: " ++ e
  ∧ classList (newLine System (Some e)) = [lit "system"].
Proof.
  intros He Hne. apply truthy_nonempty in Hne.
  split; [|split; [|done]].
  - unfold VariantA.getNextQuestion_settled. rewrite He, Hne.
    destruct k, (matchOptions _); reflexivity.
  - unfold VariantB.sendChat_settled. rewrite He, Hne. reflexivity.
Qed.

Lemma server_error_shown_as_system_witness :
  map textContent
    (VariantB.conversationDiv
       (VariantB.sendChat_settled
          (Json {| r_error := Some (lit "No session"); r_message := None;
                   r_done := None; r_options := None |})
          (VariantB.loaded (lit "1"))))
  = [lit "System: No session"].
Proof.
  destruct (server_error_shown_as_system (lit "No session")
              {| r_error := Some (lit "No session"); r_message := None;
                 r_done := None; r_options := None |}
              VariantA.Top (VariantA.loaded (lit "1")) (VariantB.loaded (lit "1")))
    as (_ & HB & _); [reflexivity | discriminate |].
  rewrite HB. reflexivity.
Defined.

(** C3 as the claim has it fails.  [sendAnswer] and [resetRecommender]
    never read [error]: an error in the response to an answer leaves the
    line [AI: undefined], and one in the response to a reset leaves the
    fallback confirmation.  And an [error] that is the empty string is
    no error to [getNextQuestion], which shows the message as [AI]. *)
Lemma error_not_always_system :
  let asked :=
    VariantA.run
      [VariantA.DOMContentLoaded;
       VariantA.Settle 0
         (Json {| r_error := None;
                  r_message := Some (lit "Pick a color. Options: Red, White");
                  r_done := None; r_options := None |})]
      (VariantA.loaded (lit "1")) in
  let failed := {| r_error := Some (lit "No session"); r_message := None;
                   r_done := None; r_options := None |} in
  map textContent
    (VariantA.conversationDiv
       (VariantA.run [VariantA.ClickOption 0; VariantA.Settle 0 (Json failed)] asked))
  = [lit "AI: Pick a color. Options: Red, White"; lit "You: Red"; lit "AI: undefined"]
  ∧ map textContent
      (VariantA.conversationDiv
         (VariantA.run [VariantA.ClickReset; VariantA.Settle 0 (Json failed)] asked))
    = [lit "System: Session reset. Starting fresh..."]
  ∧ map textContent
      (VariantA.conversationDiv
         (VariantA.run
            [VariantA.DOMContentLoaded;
             VariantA.Settle 0
               (Json {| r_error := Some []; r_message := Some (lit "Hello");
                        r_done := None; r_options := None |})]
            (VariantA.loaded (lit "1"))))
    = [lit "AI: Hello"].
Proof. vm_compute. repeat split. Qed.

(** * Further properties *)

(** ** Strings *)

Lemma skip_ws_head (s : jsstring) (c : N) :
  head (skip_ws s) = Some c → is_ws c = false.
Proof.
  induction s as [|a s IH]; [done|]. simpl.
  destruct (is_ws a) eqn:Ha; [exact IH|]. simpl. congruence.
Qed.

Lemma skip_ws_fixed (s : jsstring) :
  (∀ c, head s = Some c → is_ws c = false) → skip_ws s = s.
Proof.
  destruct s as [|a s]; [done|]. intros H. simpl. by rewrite (H a).
Qed.

Lemma skip_ws_app (x y : jsstring) :
  skip_ws (x ++ y)
  = match skip_ws x with [] => skip_ws y | t => t ++ y end.
Proof.
  induction x as [|a x IH]; simpl.
  - by destruct (skip_ws y).
  - by destruct (is_ws a).
Qed.

(** [trimEnd] by recursion from the front. *)
Lemma trimEnd_cons (c : N) (s : jsstring) :
  trimEnd (c :: s)
  = match trimEnd s with
    | [] => if is_ws c then [] else [c]
    | t => c :: t
    end.
Proof.
  unfold trimEnd. simpl. rewrite skip_ws_app.
  destruct (skip_ws (rev s)) as [|a t] eqn:Hs; simpl.
  - by destruct (is_ws c).
  - rewrite rev_app_distr. simpl.
    destruct (rev t ++ [a]) eqn:Ht; [|done].
    destruct (rev t); discriminate.
Qed.

Lemma trimEnd_last (s : jsstring) (c : N) :
  last (trimEnd s) = Some c → is_ws c = false.
Proof.
  induction s as [|a s IH]; [done|]. rewrite trimEnd_cons.
  destruct (trimEnd s) as [|b t] eqn:Ht.
  - destruct (is_ws a) eqn:Ha; [done|]. simpl. congruence.
  - intros Hl. apply IH. exact Hl.
Qed.

Lemma trimEnd_head (s : jsstring) (c : N) :
  head s = Some c → is_ws c = false → head (trimEnd s) = Some c.
Proof.
  destruct s as [|a s]; [done|]. intros [= ->] Hc. rewrite trimEnd_cons, Hc.
  by destruct (trimEnd s).
Qed.

Lemma trimEnd_idemp (s : jsstring) : trimEnd (trimEnd s) = trimEnd s.
Proof.
  induction s as [|a s IH]; [done|]. rewrite trimEnd_cons.
  destruct (trimEnd s) as [|b t] eqn:Ht.
  - destruct (is_ws a) eqn:Ha; [done|]. rewrite trimEnd_cons. simpl. by rewrite Ha.
  - rewrite trimEnd_cons, IH. done.
Qed.

Lemma trimEnd_head_inv (s : jsstring) (c : N) :
  head (trimEnd s) = Some c → head s = Some c.
Proof.
  destruct s as [|a s]; [done|]. rewrite trimEnd_cons.
  destruct (trimEnd s); [destruct (is_ws a)|]; done.
Qed.

Lemma Forall_skip_ws (P : N → Prop) (s : jsstring) :
  Forall P s → Forall P (skip_ws s).
Proof.
  induction 1 as [|a s Ha Hs IH]; [done|]. simpl.
  destruct (is_ws a); [exact IH|]. by constructor.
Qed.

Lemma Forall_trim (P : N → Prop) (s : jsstring) :
  Forall P s → Forall P (trim s).
Proof.
  intros H. unfold trim, trimEnd, trimStart.
  apply Forall_rev, Forall_skip_ws, Forall_rev, Forall_skip_ws, H.
Qed.

Lemma trim_trimmed (s : jsstring) : trimmed (trim s).
Proof.
  split; intros c Hc.
  - apply trimEnd_head_inv in Hc. by apply skip_ws_head in Hc.
  - by apply trimEnd_last in Hc.
Qed.

Lemma trim_idemp (s : jsstring) : trim (trim s) = trim s.
Proof.
  unfold trim at 1. unfold trimStart.
  rewrite skip_ws_fixed by apply trim_trimmed.
  unfold trim. apply trimEnd_idemp.
Qed.

Lemma Forall_take_line (s : jsstring) :
  Forall (λ c, is_line_terminator c = false) (take_line s).
Proof.
  induction s as [|a s IH]; simpl; [done|].
  destruct (is_line_terminator a) eqn:Ha; [done|]. by constructor.
Qed.

Lemma split_nonempty (sep : N) (s : jsstring) : split sep s ≠ [].
Proof.
  pose proof (length_split sep s) as H. by destruct (split sep s).
Qed.

Lemma Forall_split (P : N → Prop) (sep : N) (s : jsstring) :
  Forall P s → Forall (Forall P) (split sep s).
Proof.
  induction 1 as [|a s Ha Hs IH]; simpl; [by repeat constructor|].
  destruct (a =? sep); [by constructor|].
  destruct IH as [|p ps Hp Hps]; repeat constructor; done.
Qed.

Lemma split_no_sep (sep : N) (s : jsstring) :
  Forall (Forall (λ c, c ≠ sep)) (split sep s).
Proof.
  induction s as [|a s IH]; simpl; [by repeat constructor|].
  destruct (N.eqb_spec a sep) as [->|Hne]; [by constructor|].
  destruct IH as [|p ps Hp Hps]; repeat constructor; done.
Qed.

(** X1. Every option button drawn from a message is a fresh, enabled
    button whose label has no white space at either end and holds
    neither a comma nor a line break. *)
Theorem option_labels_clean
    (k : VariantA.caller) (data : response) (s : VariantA.state) :
  Forall
    (λ btn, tagName btn = TagButton ∧ disabled btn = false
            ∧ trimmed (textContent btn)
            ∧ Forall (λ c, c ≠ comma ∧ is_line_terminator c = false)
                     (textContent btn))
    (VariantA.optionsDiv (VariantA.getNextQuestion_settled k (Json data) s)).
Proof.
  rewrite optionsDiv_getNextQuestion_settled.
  destruct (matchOptions (VariantA.messageText data)) as [cap|] eqn:Hm; [|done].
  unfold matchOptions in Hm.
  destruct (find_marker (VariantA.messageText data)) as [rest|]; [|done].
  injection Hm as <-. unfold parseOptions.
  apply List.Forall_map, List.Forall_map. simpl.
  pose proof (split_no_sep comma (take_line (skip_ws rest))) as Hsep.
  pose proof (Forall_split _ comma _ (Forall_take_line (skip_ws rest))) as Hlt.
  induction Hsep as [|p ps Hp Hps IH]; [done|].
  inversion Hlt as [|? ? Hp' Hps']; subst.
  constructor; [|by apply IH].
  split; [done|]. split; [done|]. split; [apply trim_trimmed|].
  apply Forall_trim. rewrite Forall_forall in Hp, Hp' |- *.
  intros c Hc. split; [by apply Hp | by apply Hp'].
Qed.

(** X2. Buttons appear exactly when the message holds the marker: the
    option row is not empty if and only if [Options:], in some case,
    stands somewhere in the message. *)
Theorem options_iff_marker
    (k : VariantA.caller) (data : response) (s : VariantA.state) :
  VariantA.optionsDiv (VariantA.getNextQuestion_settled k (Json data) s) ≠ []
  ↔ ∃ i rest, marker_at i (VariantA.messageText data) rest.
Proof.
  rewrite optionsDiv_getNextQuestion_settled. unfold matchOptions. split.
  - destruct (find_marker (VariantA.messageText data)) as [rest|] eqn:Hf; [|done].
    intros _. destruct (find_marker_found _ _ Hf) as (i & Hi & _). by exists i, rest.
  - intros (i & rest & Hi).
    destruct (find_marker (VariantA.messageText data)) as [r|] eqn:Hf.
    + unfold parseOptions. pose proof (split_nonempty comma (take_line (skip_ws r))).
      by destruct (split comma (take_line (skip_ws r))).
    + exfalso. revert i rest Hi Hf. generalize (VariantA.messageText data) as text.
      induction text as [|c text IH]; intros j r Hj Hf.
      * by apply marker_at_nil in Hj.
      * rewrite find_marker_unfold in Hf.
        destruct (starts_with_ci marker (c :: text)) eqn:Hst; [done|].
        destruct j as [|j].
        -- apply marker_at_0 in Hj. congruence.
        -- apply marker_at_S in Hj. by apply (IH j r).
Qed.

Lemma flat_map_join (sep : N) (pieces : list jsstring) :
  pieces ≠ [] → flat_map (λ q, sep :: q) pieces = sep :: join sep pieces.
Proof. by destruct pieces. Qed.

Lemma join_split (sep : N) (s : jsstring) : join sep (split sep s) = s.
Proof.
  induction s as [|a s IH]; [done|]. simpl.
  pose proof (split_nonempty sep s) as Hne.
  destruct (N.eqb_spec a sep) as [->|_].
  - simpl. by rewrite flat_map_join, IH.
  - destruct (split sep s) as [|p ps]; [done|]. simpl in *. by rewrite IH.
Qed.

Lemma split_piece (sep : N) (p rest : jsstring) :
  Forall (λ c, c ≠ sep) p →
  split sep p = [p] ∧ split sep (p ++ sep :: rest) = p :: split sep rest.
Proof.
  induction 1 as [|a p Ha Hp [IH1 IH2]]; simpl.
  - by rewrite N.eqb_refl.
  - destruct (N.eqb_spec a sep) as [|_]; [done|]. by rewrite IH1, IH2.
Qed.

Lemma split_join (sep : N) (pieces : list jsstring) :
  pieces ≠ [] → Forall (Forall (λ c, c ≠ sep)) pieces →
  split sep (join sep pieces) = pieces.
Proof.
  intros Hne Hall. induction Hall as [|p ps Hp Hps IH]; [done|].
  destruct ps as [|q ps].
  - simpl. rewrite app_nil_r. by apply split_piece.
  - change (join sep (p :: q :: ps)) with (p ++ flat_map (λ x, sep :: x) (q :: ps)).
    rewrite flat_map_join by done.
    destruct (split_piece sep p (join sep (q :: ps)) Hp) as [_ ->].
    by rewrite IH.
Qed.

(** X3. Splitting on commas loses nothing and is undone by joining: the
    pieces joined by commas give the text back, no piece holds a comma,
    and a non-empty list of comma-free pieces, joined and split again,
    comes back as it was. *)
Theorem split_join_round_trip (s : jsstring) (pieces : list jsstring) :
  join comma (split comma s) = s
  ∧ Forall (Forall (λ c, c ≠ comma)) (split comma s)
  ∧ (pieces ≠ [] → Forall (Forall (λ c, c ≠ comma)) pieces →
     split comma (join comma pieces) = pieces).
Proof.
  split; [apply join_split|]. split; [apply split_no_sep|apply split_join].
Qed.

Lemma split_join_round_trip_witness :
  split comma (join comma [lit "Red"; []; lit " White"])
  = [lit "Red"; []; lit " White"].
Proof.
  destruct (split_join_round_trip [] [lit "Red"; []; lit " White"]) as (_ & _ & H).
  apply H; [discriminate|].
  repeat constructor; discriminate.
Defined.

(** X4. A typed text is never sent blank or padded: [handleSubmit] and
    [handleSend] either issue no call, or issue exactly one whose text
    is the trimmed input, which is not empty, has no white space at
    either end and is left alone by a further trim. *)
Theorem typed_text_sent_trimmed (sA : VariantA.state) (sB : VariantB.state) :
  (VariantA.requests (VariantA.handleSubmit sA) = VariantA.requests sA
   ∨ ∃ a, VariantA.requests (VariantA.handleSubmit sA)
            = VariantA.requests sA ++ [VariantA.answerRequest a sA]
          ∧ a = trim (VariantA.userInput_value sA)
          ∧ a ≠ [] ∧ trimmed a ∧ trim a = a)
  ∧ (VariantB.requests (VariantB.handleSend sB) = VariantB.requests sB
     ∨ ∃ a, VariantB.requests (VariantB.handleSend sB)
              = VariantB.requests sB ++ [VariantB.conversationRequest a sB]
            ∧ a = trim (VariantB.userInput_value sB)
            ∧ a ≠ [] ∧ trimmed a ∧ trim a = a).
Proof.
  split.
  - unfold VariantA.handleSubmit.
    destruct (truthy (Some (trim (VariantA.userInput_value sA)))) eqn:Ht; [|by left].
    unfold VariantA.sendAnswer. simpl.
    destruct (VariantA.isFetching sA); [by left|]. right.
    exists (trim (VariantA.userInput_value sA)).
    split; [done|]. split; [done|]. split; [by apply truthy_nonempty|].
    split; [apply trim_trimmed|apply trim_idemp].
  - unfold VariantB.handleSend.
    destruct (truthy (Some (trim (VariantB.userInput_value sB)))) eqn:Ht; [|by left].
    right. exists (trim (VariantB.userInput_value sB)).
    split; [done|]. split; [done|]. split; [by apply truthy_nonempty|].
    split; [apply trim_trimmed|apply trim_idemp].
Qed.

(** ** The identity store, on any storage *)

Lemma uint_cus_inj (u v : Decimal.uint) : uint_cus u = uint_cus v → u = v.
Proof.
  revert v. induction u; intros v; destruct v; simpl; try discriminate;
    try done; intros [= H]; f_equal; auto.
Qed.

Lemma uint_cus_digits (u : Decimal.uint) :
  Forall (λ c, 48 ≤ c ≤ 57) (uint_cus u).
Proof. induction u; simpl; constructor; try done; lia. Qed.

Lemma numberToString_inj (z z' : Z) :
  numberToString z = numberToString z' → z = z'.
Proof.
  intros H. apply DecimalZ.to_int_inj. unfold numberToString in H.
  destruct (Z.to_int z) as [u|u], (Z.to_int z') as [v|v].
  - f_equal. by apply uint_cus_inj.
  - pose proof (uint_cus_digits u) as Hd. rewrite H in Hd.
    inversion Hd; subst. lia.
  - pose proof (uint_cus_digits v) as Hd. rewrite <- H in Hd.
    inversion Hd; subst. lia.
  - injection H as H. f_equal. by apply uint_cus_inj.
Qed.

(** X5. On any storage, the identity store returns an identifier that
    is not empty and is what the storage holds under the key afterwards;
    it touches no other key; and a later run on the storage it left
    returns the same identifier and changes nothing.  A stored string
    that is not empty is returned as it is and the storage is not
    written; a missing key and an empty stored string both give the
    decimal form of the current time. *)
Theorem identity_store_stable (now later : Z) (ls : storage) :
  (loadUserId now ls).1 ≠ []
  ∧ (loadUserId now ls).2 !! userIdKey = Some (loadUserId now ls).1
  ∧ (∀ key, key ≠ userIdKey → (loadUserId now ls).2 !! key = ls !! key)
  ∧ loadUserId later (loadUserId now ls).2 = loadUserId now ls
  ∧ (∀ v, ls !! userIdKey = Some v → v ≠ [] → loadUserId now ls = (v, ls))
  ∧ (ls !! userIdKey = None ∨ ls !! userIdKey = Some [] →
     (loadUserId now ls).1 = numberToString now).
Proof.
  assert ((loadUserId now ls).1 ≠ []
          ∧ (loadUserId now ls).2 !! userIdKey = Some (loadUserId now ls).1)
    as [Hne Hlook].
  { unfold loadUserId. destruct (ls !! userIdKey) as [[|c v]|] eqn:Hls; simpl.
    - split; [apply truthy_nonempty, numberToString_truthy|apply lookup_insert_eq].
    - by rewrite Hls.
    - split; [apply truthy_nonempty, numberToString_truthy|apply lookup_insert_eq]. }
  split; [exact Hne|]. split; [exact Hlook|]. split; [|split; [|split]].
  - intros key Hkey. unfold loadUserId.
    destruct (truthy (ls !! userIdKey)); simpl; [done|].
    by rewrite lookup_insert_ne.
  - rewrite (loadUserId_stored later _ _ Hlook) by by apply truthy_nonempty.
    by destruct (loadUserId now ls).
  - intros v Hv Hvne. apply loadUserId_stored; [done|by apply truthy_nonempty].
  - intros [H|H]; unfold loadUserId; by rewrite H.
Qed.

Lemma identity_store_stable_witness :
  (loadUserId 1700000000123 (<[lit "theme" := lit "dark"]> ∅)).2 !! lit "theme"
  = Some (lit "dark")
  ∧ (loadUserId 42 (<[userIdKey := []]> ∅)).1 = lit "42"
  ∧ loadUserId 42 (<[userIdKey := lit "7"]> ∅) = (lit "7", <[userIdKey := lit "7"]> ∅).
Proof.
  split; [|split].
  - destruct (identity_store_stable 1700000000123 0 (<[lit "theme" := lit "dark"]> ∅))
      as (_ & _ & H & _).
    rewrite H; [|discriminate]. apply lookup_insert_eq.
  - destruct (identity_store_stable 42 0 (<[userIdKey := []]> ∅))
      as (_ & _ & _ & _ & _ & H).
    rewrite H; [reflexivity|]. right. apply lookup_insert_eq.
  - destruct (identity_store_stable 42 0 (<[userIdKey := lit "7"]> ∅))
      as (_ & _ & _ & _ & H & _).
    apply H; [apply lookup_insert_eq|discriminate].
Defined.

(** X6. Identifiers made at different milliseconds differ: two first
    visits (nothing stored) get the same identifier only at the same
    clock reading. *)
Theorem generated_ids_distinct (now now' : Z) (ls ls' : storage) :
  ls !! userIdKey = None → ls' !! userIdKey = None → now ≠ now' →
  (loadUserId now ls).1 ≠ (loadUserId now' ls').1.
Proof.
  intros H H' Hne. unfold loadUserId. rewrite H, H'. simpl.
  intros Heq. by apply Hne, numberToString_inj.
Qed.

Lemma generated_ids_distinct_witness :
  (loadUserId 1700000000123 ∅).1 ≠ (loadUserId 1700000000124 ∅).1.
Proof.
  apply generated_ids_distinct; [apply lookup_empty..|discriminate].
Defined.

(** ** The page of variant A between calls *)

Section Controls.
Import VariantA.

Lemma disableUI_buttons (l : list element) :
  Forall (λ e, is_button e = true) l →
  Forall (λ e, is_button e = true)
         (map (λ btn, if is_button btn then set_disabled true btn else btn) l)
  ∧ Forall (λ e, disabled e = true)
           (map (λ btn, if is_button btn then set_disabled true btn else btn) l).
Proof.
  induction 1 as [|e l He Hl [IH1 IH2]]; simpl; [done|].
  rewrite He. split; constructor; done.
Qed.

Lemma new_buttons_are_buttons (l : list jsstring) :
  Forall (λ e, is_button e = true) (map newOptionButton l).
Proof. induction l; simpl; constructor; done. Qed.

(** The three operations, from any page: either the guard returns, or
    the controls go down and the call goes out. *)
Lemma operation_cases (op : state → state) (s : state) :
  (op = getNextQuestion Top ∨ (∃ a, op = sendAnswer a) ∨ op = resetRecommender) →
  (isFetching s = true ∧ op s = s)
  ∨ (isFetching s = false
     ∧ ∃ r t, op s = fetch r t (disableUI (set_isFetching true s))
       ∧ (r = nextQuestionRequest s ∨ r = resetRequest s
          ∨ ∃ a, r = answerRequest a s)).
Proof.
  intros [->|[[a ->]| ->]];
    unfold getNextQuestion, sendAnswer, resetRecommender;
    destruct (isFetching s); [by left|right|by left|right|by left|right];
    (split; [done|]); do 2 eexists; (split; [done|]); eauto.
Qed.

Lemma operation_controls (op : state → state) (s : state) :
  (op = getNextQuestion Top ∨ (∃ a, op = sendAnswer a) ∨ op = resetRecommender) →
  controls_follow_gate s → controls_follow_gate (op s).
Proof.
  intros Hop (Hin & Hsub & Hbtn & Hdis).
  destruct (operation_cases op s Hop) as [[Hf ->]|[Hf (r & t & -> & _)]]; [done|].
  destruct (disableUI_buttons _ Hbtn) as [H1 H2].
  repeat split; done.
Qed.

(** What a settled call leaves in the option row. *)
Lemma optionsDiv_settle (t : task) (o : outcome) (s : state) :
  isFetching s = true →
  optionsDiv (settle t o s)
  = match t, o with
    | AwaitNextQuestion _, Json data =>
        match matchOptions (messageText data) with
        | Some optionsStr => map newOptionButton (parseOptions optionsStr)
        | None => []
        end
    | AwaitReset, Json _ | AwaitReset, JsonNull => []
    | _, _ => optionsDiv s
    end.
Proof.
  intros Hf. destruct t as [k| |]; simpl.
  - destruct o as [| |data]; [by destruct k..|].
    apply optionsDiv_getNextQuestion_settled.
  - unfold sendAnswer_settled. destruct o as [| |data]; [done..|].
    destruct (negb _); [|done]. by rewrite getNextQuestion_dropped.
  - unfold resetRecommender_settled. destruct o as [| |data]; [done..|].
    rewrite getNextQuestion_dropped by (by destruct (truthy (r_message data))).
    by destruct (truthy (r_message data)).
Qed.

Lemma settle_controls (t : task) (o : outcome) (s : state) :
  isFetching s = true → inflight s = [] →
  controls_follow_gate s → controls_follow_gate (settle t o s).
Proof.
  intros Hf Hin (_ & _ & Hbtn & _).
  destruct (settle_runs_to_end t o s Hf Hin) as (Hf' & Hi' & Hs' & _).
  unfold controls_follow_gate. rewrite Hf', Hi', Hs', optionsDiv_settle by done.
  repeat split; [|done].
  destruct t, o; try done.
  destruct (matchOptions _); [apply new_buttons_are_buttons|done].
Qed.

Lemma reachable_controls (s : state) : reachable s → controls_follow_gate s.
Proof.
  induction 1 as [uid|e s Hr IH].
  - by repeat split.
  - destruct e as [|text| | |i|i o].
    + apply operation_controls; [by left|exact IH].
    + simpl. destruct (userInput_disabled s); exact IH.
    + simpl. destruct (submitButton_disabled s); [exact IH|].
      unfold handleSubmit. destruct (truthy _); [|exact IH].
      apply operation_controls; [right; left; by eexists|exact IH].
    + apply operation_controls; [by right; right|exact IH].
    + simpl. destruct (optionsDiv s !! i) as [btn|]; [|exact IH].
      destruct (disabled btn); [exact IH|].
      apply (operation_controls (sendAnswer (textContent btn)));
        [right; left; by eexists|exact IH].
    + destruct (inflight s !! i) as [t|] eqn:Hi; [|simpl; by rewrite Hi].
      destruct (settle_step s i t o Hr Hi) as [-> Hf].
      by apply settle_controls.
Qed.

Lemma reachable_run (es : list event) (s : state) :
  reachable s → reachable (run es s).
Proof.
  revert s. induction es as [|e es IH]; intros s Hr; [done|].
  simpl. apply IH. by constructor.
Qed.

End Controls.

(** X7. Variant A never has two calls out: on every page it reaches, at
    most one call is in flight, and [isFetching] is up exactly when one
    is. *)
Theorem single_flight (s : VariantA.state) :
  VariantA.reachable s →
  (length (VariantA.inflight s) ≤ 1)%nat
  ∧ (VariantA.isFetching s = true ↔ VariantA.inflight s ≠ []).
Proof.
  intros Hr. destruct (reachable_gate s Hr) as [[Hf [t Hin]]|[Hf Hin]];
    rewrite Hf, Hin; simpl; split; try lia; split; done.
Qed.

Lemma single_flight_witness :
  let s := VariantA.run
             [VariantA.DOMContentLoaded; VariantA.ClickReset; VariantA.DOMContentLoaded]
             (VariantA.loaded (lit "1")) in
  (length (VariantA.inflight s) ≤ 1)%nat ∧ length (VariantA.requests s) = 1%nat.
Proof.
  intros s. split; [|reflexivity].
  apply single_flight. subst s. apply reachable_run, VariantA.reachable_loaded.
Defined.

(** X8. On every page variant A reaches, the input and the submit
    button are disabled exactly while a call is out, and while one is
    out every option button is disabled too. *)
Theorem controls_mirror_gate (s : VariantA.state) :
  VariantA.reachable s →
  VariantA.userInput_disabled s = VariantA.isFetching s
  ∧ VariantA.submitButton_disabled s = VariantA.isFetching s
  ∧ (VariantA.isFetching s = true →
     Forall (λ btn, disabled btn = true) (VariantA.optionsDiv s)).
Proof.
  intros Hr. destruct (reachable_controls s Hr) as (H1 & H2 & _ & H3). done.
Qed.

Lemma controls_mirror_gate_witness :
  let s := VariantA.run
             [VariantA.DOMContentLoaded; VariantA.Settle 0 Rejected]
             (VariantA.loaded (lit "1")) in
  VariantA.userInput_disabled s = false ∧ VariantA.submitButton_disabled s = false.
Proof.
  intros s.
  destruct (controls_mirror_gate s) as (H1 & H2 & _).
  - subst s. apply reachable_run, VariantA.reachable_loaded.
  - rewrite H1, H2. split; reflexivity.
Defined.

(** X9. While a call is out, variant A ignores the user: loading,
    typing, and clicking submit, reset or any option leave the page
    exactly as it is; only the call settling changes it. *)
Theorem busy_page_ignores_user (s : VariantA.state) (e : VariantA.event) :
  VariantA.reachable s → VariantA.isFetching s = true → is_settle e = false →
  VariantA.step e s = s.
Proof.
  intros Hr Hf He. destruct (reachable_controls s Hr) as (Hin & Hsub & _ & Hdis).
  destruct e as [|text| | |i|i o]; simpl; [| | | | |done].
  - unfold VariantA.getNextQuestion. by rewrite Hf.
  - by rewrite Hin, Hf.
  - by rewrite Hsub, Hf.
  - unfold VariantA.resetRecommender. by rewrite Hf.
  - destruct (VariantA.optionsDiv s !! i) as [btn|] eqn:Hi; [|done].
    specialize (Hdis Hf). rewrite Forall_lookup in Hdis.
    by rewrite (Hdis i btn Hi).
Qed.

Lemma busy_page_ignores_user_witness :
  let s := VariantA.run
             [VariantA.DOMContentLoaded;
              VariantA.Settle 0
                (Json {| r_error := None; r_message := Some (lit "Options: Red");
                         r_done := None; r_options := None |});
              VariantA.ClickReset]
             (VariantA.loaded (lit "1")) in
  VariantA.step (VariantA.ClickOption 0) s = s.
Proof.
  intros s. apply busy_page_ignores_user; [|reflexivity..].
  subst s. apply reachable_run, VariantA.reachable_loaded.
Defined.

(** X10. Option buttons are never enabled again: after a call settles,
    unless it is a decoded response to fetch-next-prompt (which draws
    new buttons), every option button on the page is disabled. *)
Theorem old_options_stay_disabled
    (s : VariantA.state) (i : nat) (t : VariantA.task) (o : outcome) :
  VariantA.reachable s → VariantA.inflight s !! i = Some t →
  draws_options t o = false →
  Forall (λ btn, disabled btn = true)
         (VariantA.optionsDiv (VariantA.step (VariantA.Settle i o) s)).
Proof.
  intros Hr Hi Hd. destruct (reachable_controls s Hr) as (_ & _ & _ & Hdis).
  destruct (settle_step s i t o Hr Hi) as [-> Hf].
  rewrite optionsDiv_settle by done.
  destruct t, o; try done; by apply Hdis.
Qed.

Lemma old_options_stay_disabled_witness :
  let s := VariantA.run
             [VariantA.DOMContentLoaded;
              VariantA.Settle 0
                (Json {| r_error := None; r_message := Some (lit "Options: Red, White");
                         r_done := None; r_options := None |});
              VariantA.ClickOption 0]
             (VariantA.loaded (lit "1")) in
  Forall (λ btn, disabled btn = true)
         (VariantA.optionsDiv (VariantA.step (VariantA.Settle 0 Rejected) s))
  ∧ length (VariantA.optionsDiv (VariantA.step (VariantA.Settle 0 Rejected) s)) = 2%nat.
Proof.
  intros s. split; [|reflexivity].
  apply (old_options_stay_disabled s 0 VariantA.AwaitAnswer Rejected);
    [|reflexivity..].
  subst s. apply reachable_run, VariantA.reachable_loaded.
Defined.

Section Settled.
Import VariantA.

(** What a settled call leaves in the transcript. *)
Lemma conversationDiv_settle (t : task) (o : outcome) (s : state) :
  isFetching s = true →
  conversationDiv (settle t o s)
  = match t, o with
    | AwaitNextQuestion _, Json data =>
        conversationDiv s
          ++ [if truthy (r_error data) then newLine System (r_error data)
              else newLine AI (r_message data)]
    | AwaitAnswer, Json data => conversationDiv s ++ [newLine AI (r_message data)]
    | AwaitReset, Json data =>
        [if truthy (r_message data) then newLine System (r_message data)
         else newLine System (Some (lit "Session reset. Starting fresh..."))]
    | AwaitReset, JsonNull => [unableLine]
    | _, _ => conversationDiv s ++ [unableLine]
    end.
Proof.
  intros Hf. destruct t as [k| |]; simpl.
  - unfold getNextQuestion_settled. rewrite resume_finally.
    destruct o as [| |data]; [done..|].
    by destruct (truthy (r_error data)), (matchOptions _).
  - unfold sendAnswer_settled. destruct o as [| |data]; [done..|].
    destruct (negb _); [|done]. by rewrite getNextQuestion_dropped.
  - unfold resetRecommender_settled. destruct o as [| |data]; [done..|].
    rewrite getNextQuestion_dropped by (by destruct (truthy (r_message data))).
    by destruct (truthy (r_message data)).
Qed.

(** The typed text and the identifier after a settled call. *)
Lemma input_settle (t : task) (o : outcome) (s : state) :
  isFetching s = true →
  userId (settle t o s) = userId s
  ∧ userInput_value (settle t o s)
    = match t, o with
      | AwaitReset, Json _ | AwaitReset, JsonNull => []
      | _, _ => userInput_value s
      end.
Proof.
  intros Hf. destruct t as [k| |]; simpl.
  - unfold getNextQuestion_settled. rewrite resume_finally.
    destruct o as [| |data]; [done..|].
    by destruct (truthy (r_error data)), (matchOptions _).
  - unfold sendAnswer_settled. destruct o as [| |data]; [done..|].
    destruct (negb _); [|done]. by rewrite getNextQuestion_dropped.
  - unfold resetRecommender_settled. destruct o as [| |data]; [done..|].
    rewrite getNextQuestion_dropped by (by destruct (truthy (r_message data))).
    by destruct (truthy (r_message data)).
Qed.

End Settled.

(** X11. A rejected call of variant A, whichever function made it, adds
    the one line [System: Unable to connect to server.] and changes
    nothing else the user sees: the earlier lines, the option row and
    the typed text stay, no call is made, and the input and the submit
    button are usable again. *)
Theorem rejected_call_page
    (s : VariantA.state) (i : nat) (t : VariantA.task) :
  VariantA.reachable s → VariantA.inflight s !! i = Some t →
  let s' := VariantA.step (VariantA.Settle i Rejected) s in
  VariantA.conversationDiv s' = VariantA.conversationDiv s ++ [unableLine]
  ∧ textContent unableLine = lit "System: Unable to connect to server."
  ∧ VariantA.optionsDiv s' = VariantA.optionsDiv s
  ∧ VariantA.userInput_value s' = VariantA.userInput_value s
  ∧ VariantA.requests s' = VariantA.requests s
  ∧ VariantA.userInput_disabled s' = false
  ∧ VariantA.submitButton_disabled s' = false.
Proof.
  intros Hr Hi s'. subst s'.
  pose proof (settle_issues_no_call s i Rejected Hr) as Hreq.
  destruct (settle_step s i t Rejected Hr Hi) as [Hst Hf]. rewrite Hst in *.
  destruct (settle_runs_to_end t Rejected (VariantA.set_inflight [] s))
    as (_ & Hin & Hsub & _); [done..|].
  destruct (input_settle t Rejected (VariantA.set_inflight [] s)) as [_ Hval];
    [done|].
  rewrite conversationDiv_settle, optionsDiv_settle, Hval by done.
  by destruct t.
Qed.

Lemma rejected_call_page_witness :
  let s := VariantA.run
             [VariantA.DOMContentLoaded;
              VariantA.Settle 0
                (Json {| r_error := None; r_message := Some (lit "Options: Red");
                         r_done := None; r_options := None |});
              VariantA.TypeText (lit "dry"); VariantA.ClickSubmit]
             (VariantA.loaded (lit "1")) in
  map textContent
      (VariantA.conversationDiv (VariantA.step (VariantA.Settle 0 Rejected) s))
  = [lit "AI: Options: Red"; lit "You: dry";
     lit "System: Unable to connect to server."].
Proof.
  intros s.
  destruct (rejected_call_page s 0 VariantA.AwaitAnswer) as (H & _).
  - subst s. apply reachable_run, VariantA.reachable_loaded.
  - reflexivity.
  - rewrite H. reflexivity.
Defined.

(** X12. A [null] body is taken for a lost connection, with one
    difference.  For fetch-next-prompt and submit-answer the page ends
    as after a rejected call.  For reset the page has been wiped by the
    time the body is read: the connection error is the only line left,
    and the option row and the typed text are gone. *)
Theorem null_body_page
    (s : VariantA.state) (i : nat) (t : VariantA.task) :
  VariantA.reachable s → VariantA.inflight s !! i = Some t →
  let s' := VariantA.step (VariantA.Settle i JsonNull) s in
  (t ≠ VariantA.AwaitReset → s' = VariantA.step (VariantA.Settle i Rejected) s)
  ∧ (t = VariantA.AwaitReset →
     VariantA.conversationDiv s' = [unableLine]
     ∧ VariantA.optionsDiv s' = []
     ∧ VariantA.userInput_value s' = []
     ∧ VariantA.isFetching s' = false).
Proof.
  intros Hr Hi s'. subst s'.
  destruct (settle_step s i t JsonNull Hr Hi) as [-> Hf].
  destruct (settle_step s i t Rejected Hr Hi) as [-> _].
  split.
  - by destruct t.
  - by intros ->.
Qed.

Lemma null_body_page_witness :
  let s := VariantA.run
             [VariantA.DOMContentLoaded;
              VariantA.Settle 0
                (Json {| r_error := None; r_message := Some (lit "Options: Red");
                         r_done := None; r_options := None |});
              VariantA.TypeText (lit "dry"); VariantA.ClickReset]
             (VariantA.loaded (lit "1")) in
  map textContent
      (VariantA.conversationDiv (VariantA.step (VariantA.Settle 0 JsonNull) s))
  = [lit "System: Unable to connect to server."]
  ∧ VariantA.userInput_value (VariantA.step (VariantA.Settle 0 JsonNull) s) = [].
Proof.
  intros s.
  destruct (null_body_page s 0 VariantA.AwaitReset) as (_ & H).
  - subst s. apply reachable_run, VariantA.reachable_loaded.
  - reflexivity.
  - destruct H as (H1 & _ & H3 & _); [reflexivity|].
    rewrite H1, H3. split; reflexivity.
Defined.

(** X13. Every settled call of variant A gives the user exactly one new
    line, from [AI] or from [System]: it is added below the transcript,
    except after a reset that was not rejected, where it is the only
    line left. *)
Theorem settled_call_adds_one_line
    (s : VariantA.state) (i : nat) (t : VariantA.task) (o : outcome) :
  VariantA.reachable s → VariantA.inflight s !! i = Some t →
  ∃ who text,
    who ≠ You
    ∧ (VariantA.conversationDiv (VariantA.step (VariantA.Settle i o) s)
         = VariantA.conversationDiv s ++ [newLine who text]
       ∨ (t = VariantA.AwaitReset ∧ o ≠ Rejected
          ∧ VariantA.conversationDiv (VariantA.step (VariantA.Settle i o) s)
            = [newLine who text])).
Proof.
  intros Hr Hi. destruct (settle_step s i t o Hr Hi) as [-> Hf].
  rewrite conversationDiv_settle by done. simpl.
  destruct t as [k| |], o as [| |data];
    try (by exists System, (Some (lit "Unable to connect to server."));
           split; [|left]);
    try (by exists System, (Some (lit "Unable to connect to server."));
           split; [|right]).
  - destruct (truthy (r_error data)).
    + exists System, (r_error data). by split; [|left].
    + exists AI, (r_message data). by split; [|left].
  - exists AI, (r_message data). by split; [|left].
  - destruct (truthy (r_message data)).
    + exists System, (r_message data). by split; [|right].
    + exists System, (Some (lit "Session reset. Starting fresh...")).
      by split; [|right].
Qed.

Lemma settled_call_adds_one_line_witness :
  let s := VariantA.step VariantA.DOMContentLoaded (VariantA.loaded (lit "1")) in
  ∃ who text,
    who ≠ You
    ∧ (VariantA.conversationDiv (VariantA.step (VariantA.Settle 0 JsonNull) s)
         = VariantA.conversationDiv s ++ [newLine who text]
       ∨ (VariantA.AwaitNextQuestion VariantA.Top = VariantA.AwaitReset
          ∧ JsonNull ≠ Rejected
          ∧ VariantA.conversationDiv (VariantA.step (VariantA.Settle 0 JsonNull) s)
            = [newLine who text])).
Proof.
  intros s. apply settled_call_adds_one_line; [|reflexivity].
  subst s. apply VariantA.reachable_step, VariantA.reachable_loaded.
Defined.

(** X14. Nothing but a settled reset removes or edits a line: every
    other event of variant A, on any page, leaves the transcript as it
    was with at most one line added below it. *)
Theorem transcript_kept_unless_reset (s : VariantA.state) (e : VariantA.event) :
  (∀ i o, e = VariantA.Settle i o →
          VariantA.inflight s !! i ≠ Some VariantA.AwaitReset) →
  ∃ added,
    VariantA.conversationDiv (VariantA.step e s)
    = VariantA.conversationDiv s ++ added
    ∧ (length added ≤ 1)%nat.
Proof.
  intros Hreset.
  assert (∀ l : list element, ∃ added, l = l ++ added ∧ (length added ≤ 1)%nat)
    as Hsame by (intros l; exists []; split; [by rewrite app_nil_r|simpl; lia]).
  assert (∀ (l : list element) x,
            ∃ added, l ++ [x] = l ++ added ∧ (length added ≤ 1)%nat)
    as Hone by (intros l x; exists [x]; split; [done|simpl; lia]).
  destruct e as [|text| | |i|i o]; simpl.
  - unfold VariantA.getNextQuestion. destruct (VariantA.isFetching s); apply Hsame.
  - destruct (VariantA.userInput_disabled s); apply Hsame.
  - destruct (VariantA.submitButton_disabled s); [apply Hsame|].
    unfold VariantA.handleSubmit. destruct (truthy _); [|apply Hsame].
    unfold VariantA.sendAnswer. simpl.
    destruct (VariantA.isFetching s); apply Hone.
  - unfold VariantA.resetRecommender. destruct (VariantA.isFetching s); apply Hsame.
  - destruct (VariantA.optionsDiv s !! i) as [btn|]; [|apply Hsame].
    destruct (disabled btn); [apply Hsame|].
    unfold VariantA.optionClicked, VariantA.sendAnswer. simpl.
    destruct (VariantA.isFetching s); apply Hone.
  - destruct (VariantA.inflight s !! i) as [t|] eqn:Hi; [|apply Hsame].
    destruct t as [k| |]; [| |by destruct (Hreset i o)]; simpl.
    + unfold VariantA.getNextQuestion_settled. rewrite resume_finally.
      destruct o as [| |data]; [apply Hone..|].
      destruct (truthy (r_error data)), (matchOptions _); apply Hone.
    + unfold VariantA.sendAnswer_settled.
      destruct o as [| |data]; [apply Hone..|].
      destruct (negb _); [|apply Hone].
      unfold VariantA.getNextQuestion. simpl.
      destruct (VariantA.isFetching s); apply Hone.
Qed.

Lemma transcript_kept_unless_reset_witness :
  let s := VariantA.run
             [VariantA.DOMContentLoaded;
              VariantA.Settle 0
                (Json {| r_error := None; r_message := Some (lit "Options: Red");
                         r_done := None; r_options := None |})]
             (VariantA.loaded (lit "1")) in
  ∃ added,
    VariantA.conversationDiv (VariantA.step (VariantA.ClickOption 0) s)
    = VariantA.conversationDiv s ++ added
    ∧ (length added ≤ 1)%nat.
Proof.
  intros s. apply transcript_kept_unless_reset. intros i o H. discriminate H.
Defined.

Section Requests.
Import VariantA.

(** One event: the identifier stays, and at most one call goes out, to
    one of the three addresses. *)
Lemma step_requests (e : event) (s : state) :
  userId (step e s) = userId s
  ∧ (requests (step e s) = requests s
     ∨ ∃ r, requests (step e s) = requests s ++ [r]
            ∧ (r = nextQuestionRequest s ∨ r = resetRequest s
               ∨ ∃ a, r = answerRequest a s)).
Proof.
  assert (∀ s' : state, userId s' = userId s → requests s' = requests s →
            userId s' = userId s
            ∧ (requests s' = requests s
               ∨ ∃ r, requests s' = requests s ++ [r]
                      ∧ (r = nextQuestionRequest s ∨ r = resetRequest s
                         ∨ ∃ a, r = answerRequest a s))) as Hsame
    by (intros s' Hu Hq; split; [done|by left]).
  assert (∀ (s' : state) r, userId s' = userId s → requests s' = requests s ++ [r] →
            (r = nextQuestionRequest s ∨ r = resetRequest s
             ∨ ∃ a, r = answerRequest a s) →
            userId s' = userId s
            ∧ (requests s' = requests s
               ∨ ∃ r, requests s' = requests s ++ [r]
                      ∧ (r = nextQuestionRequest s ∨ r = resetRequest s
                         ∨ ∃ a, r = answerRequest a s))) as Hone
    by (intros s' r Hu Hq Hr; split; [done|right; by exists r]).
  destruct e as [|text| | |i|i o]; simpl.
  - unfold getNextQuestion. destruct (isFetching s); [by apply Hsame|].
    by apply (Hone _ (nextQuestionRequest s)); [..|left].
  - destruct (userInput_disabled s); by apply Hsame.
  - destruct (submitButton_disabled s); [by apply Hsame|].
    unfold handleSubmit. destruct (truthy _); [|by apply Hsame].
    unfold sendAnswer. simpl. destruct (isFetching s); [by apply Hsame|].
    apply (Hone _ (answerRequest (trim (userInput_value s)) s)); [done..|].
    right. right. by eexists.
  - unfold resetRecommender. destruct (isFetching s); [by apply Hsame|].
    by apply (Hone _ (resetRequest s)); [..|right; left].
  - destruct (optionsDiv s !! i) as [btn|]; [|by apply Hsame].
    destruct (disabled btn); [by apply Hsame|].
    unfold optionClicked, sendAnswer. simpl.
    destruct (isFetching s); [by apply Hsame|].
    apply (Hone _ (answerRequest (textContent btn) s)); [done..|].
    right. right. by eexists.
  - destruct (inflight s !! i) as [t|]; [|by apply Hsame].
    destruct t as [k| |]; simpl.
    + unfold getNextQuestion_settled. rewrite resume_finally.
      destruct o as [| |data]; [by apply Hsame..|].
      destruct (truthy (r_error data)), (matchOptions _); by apply Hsame.
    + unfold sendAnswer_settled. destruct o as [| |data]; [by apply Hsame..|].
      destruct (negb _); [|by apply Hsame].
      unfold getNextQuestion. simpl. destruct (isFetching s); [by apply Hsame|].
      by apply (Hone _ (nextQuestionRequest s)); [..|left].
    + unfold resetRecommender_settled. destruct o as [| |data]; [by apply Hsame..|].
      unfold getNextQuestion.
      destruct (truthy (r_message data)); simpl;
        (destruct (isFetching s); [by apply Hsame|]);
        by apply (Hone _ (nextQuestionRequest s)); [..|left].
Qed.

(** On a busy page the handlers do nothing. *)
Lemma busy_step (s : state) (e : event) :
  reachable s → isFetching s = true → is_settle e = false → step e s = s.
Proof.
  intros Hr Hf He. destruct (reachable_controls s Hr) as (Hin & Hsub & _ & Hdis).
  destruct e as [|text| | |i|i o]; simpl; [| | | | |done].
  - unfold getNextQuestion. by rewrite Hf.
  - by rewrite Hin, Hf.
  - by rewrite Hsub, Hf.
  - unfold resetRecommender. by rewrite Hf.
  - destruct (optionsDiv s !! i) as [btn|] eqn:Hi; [|done].
    specialize (Hdis Hf). rewrite Forall_lookup in Hdis.
    by rewrite (Hdis i btn Hi).
Qed.

End Requests.

(** X15. Whatever happens on the page of variant A, its identifier
    never changes, and every call it has made is one of three: a GET to
    [/next_question], a POST to [/reset] without body, or a POST to
    [/answer] with the one field [answer]; all of them carry that
    identifier in [user_id]. *)
Theorem every_call_wellformed (es : list VariantA.event) (uid : jsstring) :
  let s := VariantA.run es (VariantA.loaded uid) in
  VariantA.userId s = uid
  ∧ Forall
      (λ r,
         r = {| req_method := GET;
                req_url := lit "http://127.0.0.1:5001/next_question?user_id=" ++ uid;
                req_json := None |}
         ∨ r = {| req_method := POST;
                  req_url := lit "http://127.0.0.1:5001/reset?user_id=" ++ uid;
                  req_json := None |}
         ∨ ∃ a, r = {| req_method := POST;
                       req_url := lit "http://127.0.0.1:5001/answer?user_id=" ++ uid;
                       req_json := Some (lit "answer", a) |})
      (VariantA.requests s).
Proof.
  intros s. subst s.
  set (Q := λ r : request, _ ∨ _ ∨ ∃ a, _).
  assert (∀ s0, VariantA.userId s0 = uid → Forall Q (VariantA.requests s0) →
                VariantA.userId (VariantA.run es s0) = uid
                ∧ Forall Q (VariantA.requests (VariantA.run es s0))) as Hrun.
  { induction es as [|e es IH]; intros s0 Hu Hq; [done|].
    simpl. destruct (step_requests e s0) as [Hid Hreq].
    apply IH; [congruence|].
    destruct Hreq as [->|(r & -> & Hr)]; [done|].
    apply Forall_app. split; [done|]. constructor; [|done].
    unfold Q. destruct Hr as [->|[->|[a ->]]];
      unfold VariantA.nextQuestionRequest, VariantA.resetRequest,
        VariantA.answerRequest, VariantA.url; rewrite Hu; eauto. }
  apply Hrun; done.
Qed.

(** X16. Variant A makes a call only from a handler run on an idle
    page, one call per event: an event on a reachable page leaves the
    list of calls as it is, or it is no settling, no call was out, and
    exactly one call is added and is now out.  No call follows a call
    by itself, none is queued, none is retried. *)
Theorem calls_only_from_idle_page (s : VariantA.state) (e : VariantA.event) :
  VariantA.reachable s →
  VariantA.requests (VariantA.step e s) = VariantA.requests s
  ∨ (is_settle e = false
     ∧ VariantA.isFetching s = false
     ∧ VariantA.isFetching (VariantA.step e s) = true
     ∧ ∃ r, VariantA.requests (VariantA.step e s) = VariantA.requests s ++ [r]).
Proof.
  intros Hr. destruct (is_settle e) eqn:He.
  - left. destruct e; try done. by apply settle_issues_no_call.
  - destruct (VariantA.isFetching s) eqn:Hf.
    + left. by rewrite busy_step.
    + destruct (step_requests e s) as [_ [Heq|(r & Hreq & _)]]; [by left|].
      right. split; [done|]. split; [done|]. split; [|by exists r].
      assert (VariantA.reachable (VariantA.step e s)) as Hr' by by constructor.
      destruct (reachable_gate _ Hr') as [[Hf' _]|[_ Hin']]; [done|].
      destruct (reachable_gate _ Hr) as [[Hf0 _]|[_ Hin]]; [congruence|].
      exfalso. clear Hr Hr'.
      destruct e as [|text| | |i|i o]; simpl in *; [| | | | |done].
      * unfold VariantA.getNextQuestion in *. rewrite Hf in *. simpl in Hin'.
        by destruct (VariantA.inflight s).
      * destruct (VariantA.userInput_disabled s); simpl in Hreq;
          apply (f_equal length) in Hreq; rewrite length_app in Hreq;
          simpl in Hreq; lia.
      * destruct (VariantA.submitButton_disabled s).
        -- apply (f_equal length) in Hreq. rewrite length_app in Hreq.
           simpl in Hreq. lia.
        -- unfold VariantA.handleSubmit in *. destruct (truthy _).
           ++ unfold VariantA.sendAnswer in *. simpl in *. rewrite Hf in *.
              simpl in Hin'. by destruct (VariantA.inflight s).
           ++ apply (f_equal length) in Hreq. rewrite length_app in Hreq.
              simpl in Hreq. lia.
      * unfold VariantA.resetRecommender in *. rewrite Hf in *. simpl in Hin'.
        by destruct (VariantA.inflight s).
      * destruct (VariantA.optionsDiv s !! i) as [btn|].
        -- destruct (disabled btn).
           ++ apply (f_equal length) in Hreq. rewrite length_app in Hreq.
              simpl in Hreq. lia.
           ++ unfold VariantA.optionClicked, VariantA.sendAnswer in *.
              simpl in *. rewrite Hf in *. simpl in Hin'.
              by destruct (VariantA.inflight s).
        -- apply (f_equal length) in Hreq. rewrite length_app in Hreq.
           simpl in Hreq. lia.
Qed.

Lemma calls_only_from_idle_page_witness :
  let s := VariantA.step VariantA.DOMContentLoaded (VariantA.loaded (lit "1")) in
  VariantA.requests (VariantA.step VariantA.ClickReset s) = VariantA.requests s.
Proof.
  intros s.
  destruct (calls_only_from_idle_page s VariantA.ClickReset) as [H|(_ & H & _)].
  - subst s. apply VariantA.reachable_step, VariantA.reachable_loaded.
  - exact H.
  - discriminate H.
Defined.

(** ** The page of variant B *)

Section Chat.
Import VariantB.

Lemma shownLines_addMessage (who : sender) (text : option jsstring) (s : state) :
  shownLines (addMessage who text s) = shownLines s ++ [newLine who text].
Proof.
  unfold shownLines, addMessage, appendMessage. simpl.
  rewrite filter_app. f_equal. rewrite filter_cons_True; [done|]. by destruct who.
Qed.

Lemma conversationDiv_settled_ok (data : response) (s : state) :
  truthy (r_error data) = false →
  conversationDiv (sendChat_settled (Json data) s)
  = shownLines s ++ [newLine AI (r_message data)]
      ++ map newOptionButton (default [] (r_options data)).
Proof.
  intros He. unfold sendChat_settled. rewrite He.
  pose proof (shownLines_addMessage AI (r_message data) s) as Hl.
  unfold shownLines in Hl.
  destruct (r_options data) as [[|o options]|]; simpl;
    unfold addOptionButtons, removeOptionButtons; simpl;
    fold (appendMessage AI (r_message data) (conversationDiv s));
    change (appendMessage AI (r_message data) (conversationDiv s))
      with (conversationDiv (addMessage AI (r_message data) s));
    rewrite Hl; by rewrite <- ?app_assoc, ?app_nil_r.
Qed.

Lemma youLines_app (l k : list element) : youLines (l ++ k) = youLines l ++ youLines k.
Proof. apply filter_app. Qed.

Lemma youLines_lines (l : list element) :
  youLines (filter (λ e, has_class optionButtonClass e = false) l) = youLines l.
Proof.
  unfold youLines. induction l as [|e l IH]; [done|].
  destruct (decide (classList e = [lit "you"])) as [Hy|Hn].
  - assert (has_class optionButtonClass e = false) as Hc
      by (unfold has_class; by rewrite Hy).
    rewrite (filter_cons_True (λ e, has_class optionButtonClass e = false)) by done.
    rewrite !filter_cons_True by done. by rewrite IH.
  - rewrite (filter_cons_False (λ e, classList e = [lit "you"]) e l) by done.
    destruct (has_class optionButtonClass e) eqn:Hc.
    + by rewrite filter_cons_False by (rewrite Hc; discriminate).
    + rewrite filter_cons_True by done. by rewrite filter_cons_False by done.
Qed.

Lemma youLines_buttons (options : list jsstring) :
  youLines (map newOptionButton options) = [].
Proof.
  unfold youLines. induction options as [|o options IH]; [done|].
  simpl. by rewrite filter_cons_False by discriminate.
Qed.

Lemma youLines_addMessage (who : sender) (text : option jsstring) (s : state) :
  youLines (conversationDiv (addMessage who text s))
  = youLines (conversationDiv s)
      ++ match who with You => [newLine You text] | _ => [] end.
Proof.
  unfold addMessage, appendMessage. simpl. rewrite youLines_app. f_equal.
  unfold youLines. destruct who;
    by rewrite ?filter_cons_True, ?filter_cons_False by done.
Qed.

Lemma conversationDiv_removeOptionButtons (s : state) :
  conversationDiv (removeOptionButtons s)
  = filter (λ e, has_class optionButtonClass e = false) (conversationDiv s).
Proof. reflexivity. Qed.

Lemma conversationDiv_addOptionButtons (options : list jsstring) (s : state) :
  conversationDiv (addOptionButtons options s)
  = filter (λ e, has_class optionButtonClass e = false) (conversationDiv s)
      ++ map newOptionButton options.
Proof. reflexivity. Qed.

Lemma youLines_settled (o : outcome) (s : state) :
  youLines (conversationDiv (sendChat_settled o s)) = youLines (conversationDiv s).
Proof.
  unfold sendChat_settled.
  destruct o as [| |data];
    [by rewrite youLines_addMessage, app_nil_r..|].
  destruct (truthy (r_error data)); [by rewrite youLines_addMessage, app_nil_r|].
  destruct (r_options data) as [[|o options]|].
  - by rewrite conversationDiv_removeOptionButtons, youLines_lines,
      youLines_addMessage, app_nil_r.
  - by rewrite conversationDiv_addOptionButtons, youLines_app, youLines_buttons,
      youLines_lines, youLines_addMessage, !app_nil_r.
  - by rewrite conversationDiv_removeOptionButtons, youLines_lines,
      youLines_addMessage, app_nil_r.
Qed.

(** One event of variant B: what it does to the identifier, the calls
    and the lines of the user. *)
Lemma step_sent (e : event) (s : state) :
  userId (step e s) = userId s
  ∧ ((requests (step e s) = requests s
      ∧ youLines (conversationDiv (step e s)) = youLines (conversationDiv s))
     ∨ ∃ text,
         requests (step e s) = requests s ++ [conversationRequest text s]
         ∧ youLines (conversationDiv (step e s))
           = youLines (conversationDiv s) ++ [newLine You (Some text)]).
Proof.
  assert (∀ text v,
            userId (sendChat text (set_userInput_value v (addMessage You (Some text) s)))
            = userId s
            ∧ requests (sendChat text (set_userInput_value v (addMessage You (Some text) s)))
              = requests s ++ [conversationRequest text s]
            ∧ youLines (conversationDiv
                 (sendChat text (set_userInput_value v (addMessage You (Some text) s))))
              = youLines (conversationDiv s) ++ [newLine You (Some text)])
    as Hsend.
  { intros text v. split; [done|]. split; [done|].
    apply (youLines_addMessage You (Some text) s). }
  assert (∀ text,
            userId (optionClicked text s) = userId s
            ∧ requests (optionClicked text s)
              = requests s ++ [conversationRequest text s]
            ∧ youLines (conversationDiv (optionClicked text s))
              = youLines (conversationDiv s) ++ [newLine You (Some text)])
    as Hclick.
  { intros text. split; [done|]. split; [done|].
    apply (youLines_addMessage You (Some text) s). }
  destruct e as [text| |isEnter| |i|o]; simpl.
  - split; [done|]. by left.
  - unfold handleSend. destruct (truthy _); simpl; [|split; [done|by left]].
    destruct (Hsend (trim (userInput_value s)) []) as (Hu & Hq & Hy).
    split; [done|]. right. by exists (trim (userInput_value s)).
  - destruct isEnter; [|split; [done|by left]].
    unfold handleSend. destruct (truthy _); simpl; [|split; [done|by left]].
    destruct (Hsend (trim (userInput_value s)) []) as (Hu & Hq & Hy).
    split; [done|]. right. by exists (trim (userInput_value s)).
  - destruct (Hclick (lit "reset")) as (Hu & Hq & Hy).
    split; [done|]. right. by exists (lit "reset").
  - destruct (conversationDiv s !! i) as [btn|]; [|split; [done|by left]].
    destruct (is_button btn && has_class optionButtonClass btn);
      [|split; [done|by left]].
    destruct (Hclick (textContent btn)) as (Hu & Hq & Hy).
    split; [done|]. right. by exists (textContent btn).
  - destruct (inflight s) as [|n]; [split; [done|by left]|].
    assert (userId (sendChat_settled o (set_inflight n s)) = userId s
            ∧ requests (sendChat_settled o (set_inflight n s)) = requests s)
      as [Hu Hq].
    { destruct o as [| |data]; [done..|]. unfold sendChat_settled.
      destruct (truthy (r_error data)); [done|].
      by destruct (r_options data) as [[|]|]. }
    split; [done|]. left. split; [done|].
    apply (youLines_settled o (set_inflight n s)).
Qed.

End Chat.

(** X17. Whatever happens on the page of variant B, its identifier
    never changes, and every call it has made is a POST to
    [/conversation] with that identifier in [user_id] and a body with
    the one field [message]. *)
Theorem every_chat_wellformed (es : list VariantB.event) (uid : jsstring) :
  let s := VariantB.run es (VariantB.loaded uid) in
  VariantB.userId s = uid
  ∧ Forall
      (λ r, ∃ text,
         r = {| req_method := POST;
                req_url := lit "http://127.0.0.1:5001/conversation?user_id=" ++ uid;
                req_json := Some (lit "message", text) |})
      (VariantB.requests s).
Proof.
  intros s. subst s.
  set (Q := λ r : request, ∃ text, _).
  assert (∀ s0, VariantB.userId s0 = uid → Forall Q (VariantB.requests s0) →
                VariantB.userId (VariantB.run es s0) = uid
                ∧ Forall Q (VariantB.requests (VariantB.run es s0))) as Hrun.
  { induction es as [|e es IH]; intros s0 Hu Hq; [done|].
    simpl. destruct (step_sent e s0) as [Hid Hreq].
    apply IH; [congruence|].
    destruct Hreq as [[-> _]|(text & -> & _)]; [done|].
    apply Forall_app. split; [done|]. constructor; [|done].
    exists text. unfold VariantB.conversationRequest. by rewrite Hu. }
  apply Hrun; done.
Qed.

(** X18. In variant B what the user sees having said is what was sent:
    on every page reached from the start, the [You] lines of the
    transcript, in order, are exactly the texts of the calls made, in
    order, one line per call. *)
Theorem user_lines_are_the_calls (es : list VariantB.event) (uid : jsstring) :
  let s := VariantB.run es (VariantB.loaded uid) in
  youLines (VariantB.conversationDiv s)
  = map (λ r, newLine You (sentText r)) (VariantB.requests s).
Proof.
  intros s. subst s.
  assert (∀ s0,
            youLines (VariantB.conversationDiv s0)
            = map (λ r, newLine You (sentText r)) (VariantB.requests s0) →
            youLines (VariantB.conversationDiv (VariantB.run es s0))
            = map (λ r, newLine You (sentText r))
                  (VariantB.requests (VariantB.run es s0))) as Hrun.
  { induction es as [|e es IH]; intros s0 H0; [done|].
    simpl. apply IH.
    destruct (step_sent e s0) as [_ [[-> ->]|(text & -> & ->)]]; [done|].
    by rewrite map_app, H0. }
  apply Hrun. reflexivity.
Qed.

(** X19. After a decoded response without error, the page of variant B
    is the lines that were there, then the [AI] line of the response,
    then one button per option of the response, in order, and nothing
    else: the buttons always sit below the whole transcript. *)
Theorem chat_response_page
    (s : VariantB.state) (n : nat) (data : response) :
  VariantB.inflight s = S n → truthy (r_error data) = false →
  VariantB.conversationDiv (VariantB.step (VariantB.Settle (Json data)) s)
  = VariantB.shownLines s ++ [newLine AI (r_message data)]
      ++ map VariantB.newOptionButton (default [] (r_options data)).
Proof.
  intros Hin He. simpl. rewrite Hin.
  apply (conversationDiv_settled_ok data (VariantB.set_inflight n s) He).
Qed.

Lemma chat_response_page_witness :
  let s := VariantB.run
             [VariantB.TypeText (lit "sweet"); VariantB.ClickSubmit;
              VariantB.Settle
                (Json {| r_error := None; r_message := Some (lit "Red or white?");
                         r_done := None;
                         r_options := Some [lit "Red"; lit "White"] |});
              VariantB.ClickOption 2]
             (VariantB.loaded (lit "1")) in
  map textContent
      (VariantB.conversationDiv
         (VariantB.step
            (VariantB.Settle
               (Json {| r_error := None; r_message := Some (lit "Dry or sweet?");
                        r_done := None; r_options := Some [lit "Dry"] |})) s))
  = [lit "You: sweet"; lit "AI: Red or white?"; lit "You: Red";
     lit "AI: Dry or sweet?"; lit "Dry"].
Proof.
  intros s.
  rewrite (chat_response_page s 0
             {| r_error := None; r_message := Some (lit "Dry or sweet?");
                r_done := None; r_options := Some [lit "Dry"] |});
    reflexivity.
Defined.

Section ChatLines.
Import VariantB.

Lemma step_lines (e : event) (s : state) :
  ∃ added, shownLines (step e s) = shownLines s ++ added ∧ (length added ≤ 1)%nat.
Proof.
  assert (∃ added, shownLines s = shownLines s ++ added ∧ (length added ≤ 1)%nat)
    as Hsame by (exists []; split; [by rewrite app_nil_r|simpl; lia]).
  assert (∀ who text (s0 : state),
            shownLines s0 = shownLines (addMessage who text s) →
            ∃ added, shownLines s0 = shownLines s ++ added ∧ (length added ≤ 1)%nat)
    as Hone.
  { intros who text s0 ->. rewrite shownLines_addMessage.
    exists [newLine who text]. split; [done|simpl; lia]. }
  destruct e as [text| |isEnter| |i|o]; simpl.
  - exact Hsame.
  - unfold handleSend. destruct (truthy _); simpl; [|exact Hsame].
    by eapply Hone.
  - destruct isEnter; [|exact Hsame].
    unfold handleSend. destruct (truthy _); simpl; [|exact Hsame].
    by eapply Hone.
  - by eapply Hone.
  - destruct (conversationDiv s !! i) as [btn|]; [|exact Hsame].
    destruct (is_button btn && has_class optionButtonClass btn); [|exact Hsame].
    by eapply Hone.
  - destruct (inflight s) as [|n]; [exact Hsame|].
    destruct o as [| |data]; [by eapply Hone..|].
    unfold sendChat_settled. destruct (truthy (r_error data)); [by eapply Hone|].
    destruct (r_options data) as [[|o options]|].
    + apply (Hone AI (r_message data)).
      by rewrite shownLines_removeOptionButtons.
    + apply (Hone AI (r_message data)).
      by rewrite shownLines_addOptionButtons.
    + apply (Hone AI (r_message data)).
      by rewrite shownLines_removeOptionButtons.
Qed.

End ChatLines.

(** X20. Variant B never removes or edits a line: whatever events
    happen, on any page, the lines that were in the transcript are
    still there, in order, with the new ones below them; one event adds
    at most one line. *)
Theorem chat_lines_only_grow (es : list VariantB.event) (s : VariantB.state) :
  ∃ added,
    VariantB.shownLines (VariantB.run es s) = VariantB.shownLines s ++ added
    ∧ (length added ≤ length es)%nat.
Proof.
  revert s. induction es as [|e es IH]; intros s.
  - exists []. split; [by rewrite app_nil_r|done].
  - simpl. destruct (IH (VariantB.step e s)) as (more & -> & Hm).
    destruct (step_lines e s) as (one & -> & Ho).
    exists (one ++ more). split; [by rewrite app_assoc|].
    rewrite length_app. lia.
Qed.

(** X21. Every settled call of variant B gives the user exactly one new
    line, from [AI] or from [System], keeps the typed text, and makes
    no call; a rejected call or a [null] body adds the line
    [System: Error connecting to server.] and leaves the option buttons
    on the page. *)
Theorem chat_settled_adds_one_line
    (s : VariantB.state) (n : nat) (o : outcome) :
  VariantB.inflight s = S n →
  let s' := VariantB.step (VariantB.Settle o) s in
  (∃ who text,
     who ≠ You
     ∧ VariantB.shownLines s' = VariantB.shownLines s ++ [newLine who text])
  ∧ VariantB.userInput_value s' = VariantB.userInput_value s
  ∧ VariantB.requests s' = VariantB.requests s
  ∧ VariantB.inflight s' = n
  ∧ (o = Rejected ∨ o = JsonNull →
     VariantB.conversationDiv s'
       = VariantB.conversationDiv s
           ++ [newLine System (Some (lit "Error connecting to server."))]
     ∧ VariantB.shownOptions s' = VariantB.shownOptions s).
Proof.
  intros Hin s'. subst s'. simpl. rewrite Hin.
  split; [|split; [|split; [|split]]].
  - destruct o as [| |data].
    + exists System, (Some (lit "Error connecting to server.")).
      split; [done|exact (shownLines_addMessage _ _ (VariantB.set_inflight n s))].
    + exists System, (Some (lit "Error connecting to server.")).
      split; [done|exact (shownLines_addMessage _ _ (VariantB.set_inflight n s))].
    + unfold VariantB.sendChat_settled. destruct (truthy (r_error data)).
      * exists System, (r_error data). split; [done|exact (shownLines_addMessage _ _ (VariantB.set_inflight n s))].
      * exists AI, (r_message data). split; [done|].
        destruct (r_options data) as [[|o options]|];
          rewrite ?shownLines_removeOptionButtons, ?shownLines_addOptionButtons;
          exact (shownLines_addMessage _ _ (VariantB.set_inflight n s)).
  - destruct o as [| |data]; [done..|]. unfold VariantB.sendChat_settled.
    destruct (truthy (r_error data)); [done|].
    by destruct (r_options data) as [[|]|].
  - destruct o as [| |data]; [done..|]. unfold VariantB.sendChat_settled.
    destruct (truthy (r_error data)); [done|].
    by destruct (r_options data) as [[|]|].
  - destruct o as [| |data]; [done..|]. unfold VariantB.sendChat_settled.
    destruct (truthy (r_error data)); [done|].
    by destruct (r_options data) as [[|]|].
  - intros [->| ->]; (split; [done|exact (shownOptions_addMessage _ _ (VariantB.set_inflight n s))]).
Qed.

Lemma chat_settled_adds_one_line_witness :
  let s := VariantB.run
             [VariantB.TypeText (lit "sweet"); VariantB.ClickSubmit;
              VariantB.Settle
                (Json {| r_error := None; r_message := Some (lit "Red or white?");
                         r_done := None;
                         r_options := Some [lit "Red"; lit "White"] |});
              VariantB.ClickOption 2]
             (VariantB.loaded (lit "1")) in
  VariantB.shownOptions (VariantB.step (VariantB.Settle Rejected) s)
  = [lit "Red"; lit "White"].
Proof.
  intros s.
  destruct (chat_settled_adds_one_line s 0 Rejected) as (_ & _ & _ & _ & H);
    [reflexivity|].
  destruct H as [_ H]; [by left|]. rewrite H. reflexivity.
Defined.

(** ** Clicking an option and typing it *)

Section Labels.
Import VariantA.

Lemma labels_disableUI (l : list element) :
  Forall (λ b, trim (textContent b) = textContent b) l →
  Forall (λ b, trim (textContent b) = textContent b)
         (map (λ btn, if is_button btn then set_disabled true btn else btn) l).
Proof.
  induction 1 as [|e l He Hl IH]; simpl; [done|].
  constructor; [by destruct (is_button e)|done].
Qed.

Lemma labels_new (optionsStr : jsstring) :
  Forall (λ b, trim (textContent b) = textContent b)
         (map newOptionButton (parseOptions optionsStr)).
Proof.
  unfold parseOptions. induction (split comma optionsStr) as [|p ps IH]; simpl; [done|].
  constructor; [apply trim_idemp|done].
Qed.

(** Every option button of a page variant A reaches has a trimmed label. *)
Lemma reachable_labels (s : state) :
  reachable s → Forall (λ b, trim (textContent b) = textContent b) (optionsDiv s).
Proof.
  induction 1 as [uid|e s Hr IH]; [done|].
  assert (∀ op : state → state,
            (op = getNextQuestion Top ∨ (∃ a, op = sendAnswer a)
             ∨ op = resetRecommender) →
            ∀ s0, optionsDiv s0 = optionsDiv s →
            Forall (λ b, trim (textContent b) = textContent b) (optionsDiv (op s0)))
    as Hop.
  { intros op Hop s0 H0.
    destruct (operation_cases op s0 Hop) as [[_ ->]|[_ (r & t & -> & _)]].
    - by rewrite H0.
    - simpl. rewrite H0. by apply labels_disableUI. }
  destruct e as [|text| | |i|i o]; simpl.
  - apply Hop; [by left|done].
  - by destruct (userInput_disabled s).
  - destruct (submitButton_disabled s); [done|].
    unfold handleSubmit. destruct (truthy _); [|done].
    apply Hop; [right; left; by eexists|done].
  - apply Hop; [by right; right|done].
  - destruct (optionsDiv s !! i) as [btn|]; [|done].
    destruct (disabled btn); [done|].
    apply (Hop (sendAnswer (textContent btn))); [right; left; by eexists|done].
  - destruct (inflight s !! i) as [t|] eqn:Hi; [|done].
    destruct (settle_step s i t o Hr Hi) as [Hst Hf]. simpl in Hst.
    rewrite Hi in Hst. rewrite Hst, optionsDiv_settle by done.
    destruct t, o; try done.
    destruct (matchOptions _); [apply labels_new|done].
Qed.

End Labels.

(** X22. In variant A, clicking an option is typing it: on an idle page
    with nothing typed, a click on an enabled option button whose label
    is not empty leaves exactly the page that typing the label and
    clicking submit leaves. *)
Theorem option_click_is_typed_submit
    (s : VariantA.state) (i : nat) (btn : element) :
  VariantA.reachable s → VariantA.isFetching s = false →
  VariantA.optionsDiv s !! i = Some btn → disabled btn = false →
  textContent btn ≠ [] → VariantA.userInput_value s = [] →
  VariantA.step (VariantA.ClickOption i) s
  = VariantA.step VariantA.ClickSubmit
      (VariantA.step (VariantA.TypeText (textContent btn)) s).
Proof.
  intros Hr Hf Hi Hd Hne Hin.
  destruct (reachable_controls s Hr) as (Hind & Hsub & _).
  pose proof (reachable_labels s Hr) as Hl. rewrite Forall_lookup in Hl.
  specialize (Hl i btn Hi). apply truthy_nonempty in Hne.
  assert (VariantA.step (VariantA.ClickOption i) s
          = VariantA.optionClicked (textContent btn) s) as ->
    by (simpl; by rewrite Hi, Hd).
  assert (VariantA.step (VariantA.TypeText (textContent btn)) s
          = VariantA.set_userInput_value (textContent btn) s) as ->
    by (simpl; by rewrite Hind, Hf).
  assert (VariantA.step VariantA.ClickSubmit
            (VariantA.set_userInput_value (textContent btn) s)
          = VariantA.handleSubmit
              (VariantA.set_userInput_value (textContent btn) s)) as ->
    by (simpl; by rewrite Hsub, Hf).
  unfold VariantA.handleSubmit.
  change (VariantA.userInput_value
            (VariantA.set_userInput_value (textContent btn) s))
    with (textContent btn).
  rewrite Hl, Hne. unfold VariantA.optionClicked. f_equal.
  destruct s. simpl in *. by subst.
Qed.

Lemma option_click_is_typed_submit_witness :
  let s := VariantA.run
             [VariantA.DOMContentLoaded;
              VariantA.Settle 0
                (Json {| r_error := None; r_message := Some (lit "Options: Red, White");
                         r_done := None; r_options := None |})]
             (VariantA.loaded (lit "1")) in
  VariantA.step (VariantA.ClickOption 1) s
  = VariantA.run [VariantA.TypeText (lit "White"); VariantA.ClickSubmit] s.
Proof.
  intros s.
  apply (option_click_is_typed_submit s 1 (VariantA.newOptionButton (lit "White")));
    [|reflexivity|reflexivity|reflexivity|discriminate|reflexivity].
  subst s. apply reachable_run, VariantA.reachable_loaded.
Defined.

(** X23. In variant B an option is sent as the server gave it, not
    trimmed: with nothing typed, a click on an option button leaves the
    page that typing its label and clicking submit leaves, provided the
    label is not empty and has no white space at its ends. *)
Theorem chat_option_click_is_typed_submit
    (s : VariantB.state) (i : nat) (btn : element) :
  VariantB.conversationDiv s !! i = Some btn →
  is_button btn && has_class VariantB.optionButtonClass btn = true →
  trim (textContent btn) = textContent btn → textContent btn ≠ [] →
  VariantB.userInput_value s = [] →
  VariantB.step (VariantB.ClickOption i) s
  = VariantB.step VariantB.ClickSubmit
      (VariantB.step (VariantB.TypeText (textContent btn)) s).
Proof.
  intros Hi Hb Ht Hne Hin. apply truthy_nonempty in Hne.
  assert (VariantB.step (VariantB.ClickOption i) s
          = VariantB.optionClicked (textContent btn) s) as ->
    by (simpl; by rewrite Hi, Hb).
  change (VariantB.step VariantB.ClickSubmit
            (VariantB.step (VariantB.TypeText (textContent btn)) s))
    with (VariantB.handleSend (VariantB.set_userInput_value (textContent btn) s)).
  unfold VariantB.handleSend.
  change (VariantB.userInput_value
            (VariantB.set_userInput_value (textContent btn) s))
    with (textContent btn).
  rewrite Ht, Hne. unfold VariantB.optionClicked. simpl. f_equal.
  destruct s. simpl in *. by subst.
Qed.

Lemma chat_option_click_is_typed_submit_witness :
  let s := VariantB.run
             [VariantB.ClickReset;
              VariantB.Settle
                (Json {| r_error := None; r_message := Some (lit "Red or white?");
                         r_done := None;
                         r_options := Some [lit "Red"; lit "White"] |})]
             (VariantB.loaded (lit "1")) in
  VariantB.step (VariantB.ClickOption 2) s
  = VariantB.run [VariantB.TypeText (lit "Red"); VariantB.ClickSubmit] s.
Proof.
  intros s.
  apply (chat_option_click_is_typed_submit s 2 (VariantB.newOptionButton (lit "Red")));
    [reflexivity|reflexivity|reflexivity|discriminate|reflexivity].
Defined.

(** X24. An identifier made at a time that is not negative is a decimal
    numeral: it is not empty and holds digits only, so it goes into the
    address of a call as it is. *)
Theorem generated_id_is_digits (now : Z) (ls : storage) :
  (0 ≤ now)%Z → ls !! userIdKey = None →
  (loadUserId now ls).1 ≠ []
  ∧ Forall (λ c, 48 ≤ c ≤ 57) (loadUserId now ls).1.
Proof.
  intros Hnow Hls. unfold loadUserId. rewrite Hls. simpl. split.
  - apply truthy_nonempty, numberToString_truthy.
  - unfold numberToString. destruct now as [|p|p]; simpl; [| |lia].
    + repeat constructor; lia.
    + apply uint_cus_digits.
Qed.

Lemma generated_id_is_digits_witness :
  Forall (λ c, 48 ≤ c ≤ 57) (loadUserId 1700000000123 ∅).1.
Proof.
  apply (generated_id_is_digits 1700000000123 ∅); [lia|apply lookup_empty].
Defined.

(** On a page variant A reaches, a click on the enabled submit button
    with a text that is not blank always issues POST [/answer]: the
    button is enabled only while no call is out. *)
Lemma click_submit_issues_answer (s : VariantA.state) :
  VariantA.reachable s → VariantA.submitButton_disabled s = false →
  trim (VariantA.userInput_value s) ≠ [] →
  VariantA.requests (VariantA.step VariantA.ClickSubmit s)
  = VariantA.requests s
      ++ [VariantA.answerRequest (trim (VariantA.userInput_value s)) s]
  ∧ VariantA.userInput_value (VariantA.step VariantA.ClickSubmit s) = [].
Proof.
  intros Hr Hsub Hne. apply truthy_nonempty in Hne.
  destruct (reachable_controls s Hr) as (_ & Hgate & _).
  rewrite Hsub in Hgate. simpl. rewrite Hsub.
  unfold VariantA.handleSubmit. rewrite Hne.
  unfold VariantA.sendAnswer. simpl. by rewrite <- Hgate.
Qed.
